(** * Property-term filter of the polymer data extraction pipeline

    A shallow embedding of [filters/filter_by_property_terms.py]: the synonym
    expansion of requested property terms, the sentence splitter, the
    (polymer, property, value) triple detector and the corpus loop, followed
    by the properties of the written specification that concern them.

    Conventions of the model.
    - A Python [str] is a [string] whose characters are code points below 256
      (the Latin-1 block, which holds the degree sign and the middle dot of
      the unit vocabulary).  The character classes below are the ones CPython
      uses for [str.lower], [str.strip], and [\s], [\w], [\d] of [re] on that
      block.
    - An insertion-ordered [dict] that is iterated is an association list;
      a [dict] that is only probed is a [gmap]; a [set] is a [gset].
    - The values read from the synonyms JSON file are [pyval]s, so that the
      [isinstance] tests of the source have something to test. *)

From Stdlib Require Import NArith Ascii String.
From stdpp Require Import gmap strings list.

Local Open Scope string_scope.

(** ** Characters *)

Module Char.

Definition cp (c : ascii) : N := N_of_ascii c.

Definition in_range (lo hi : N) (c : ascii) : bool :=
  ((lo <=? cp c)%N && (cp c <=? hi)%N)%bool.

Definition is_cp (n : N) (c : ascii) : bool := (cp c =? n)%N.

(** [str.isspace], which is also [\s] and what [str.strip] removes. *)
Definition is_space (c : ascii) : bool :=
  in_range 9 13 c || in_range 28 32 c || is_cp 133 c || is_cp 160 c.

(** [\d]. *)
Definition is_digit (c : ascii) : bool := in_range 48 57 c.

(** [\w]: alphanumeric code points and the underscore. *)
Definition is_word (c : ascii) : bool :=
  in_range 48 57 c || in_range 65 90 c || is_cp 95 c || in_range 97 122 c
  || is_cp 170 c || in_range 178 179 c || is_cp 181 c || in_range 185 186 c
  || in_range 188 190 c || in_range 192 214 c || in_range 216 246 c
  || in_range 248 255 c.

(** The class [[A-Z]]. *)
Definition is_AZ (c : ascii) : bool := in_range 65 90 c.

(** The class [[.!?]]. *)
Definition is_stop (c : ascii) : bool := is_cp 46 c || is_cp 33 c || is_cp 63 c.

(** One character of [str.lower]. *)
Definition lower (c : ascii) : ascii :=
  if in_range 65 90 c || (in_range 192 222 c && negb (is_cp 215 c))
  then ascii_of_N (cp c + 32)
  else c.

(** Equality of characters, and equality under [re.I]. *)
Definition eqb (a b : ascii) : bool := (cp a =? cp b)%N.
Definition eqb_ci (a b : ascii) : bool := eqb (lower a) (lower b).

End Char.

Arguments Char.lower : simpl never.
Arguments Char.is_space : simpl never.
Arguments Char.is_word : simpl never.
Arguments Char.is_stop : simpl never.
Arguments Char.is_AZ : simpl never.
Arguments Char.is_digit : simpl never.
Arguments Char.eqb : simpl never.

(** ** Strings *)

Module Str.

Fixpoint map (f : ascii -> ascii) (s : string) : string :=
  match s with
  | EmptyString => EmptyString
  | String c s' => String (f c) (map f s')
  end.

(** [s.lower()] *)
Definition lower (s : string) : string := map Char.lower s.

Definition is_empty (s : string) : bool :=
  match s with EmptyString => true | String _ _ => false end.

(** [s.lstrip()] *)
Fixpoint lstrip (s : string) : string :=
  match s with
  | EmptyString => EmptyString
  | String c s' => if Char.is_space c then lstrip s' else s
  end.

(** [s.rstrip()] *)
Fixpoint rstrip (s : string) : string :=
  match s with
  | EmptyString => EmptyString
  | String c s' =>
      let r := rstrip s' in
      if Char.is_space c && is_empty r then EmptyString else String c r
  end.

(** [s.strip()] *)
Definition strip (s : string) : string := rstrip (lstrip s).

(** [sep.join(parts)] *)
Fixpoint join (sep : string) (parts : list string) : string :=
  match parts with
  | [] => EmptyString
  | [p] => p
  | p :: ps => p +:+ sep +:+ join sep ps
  end.

(** The characters of a string, for statements about its content. *)
Fixpoint chars (s : string) : list ascii :=
  match s with
  | EmptyString => []
  | String c s' => c :: chars s'
  end.

(** A string is lowercase when [lower] leaves it alone. *)
Definition is_lower (s : string) : Prop := lower s = s.

End Str.

(** ** The fragment of Python's [re] that the module uses

    A backtracking matcher in continuation-passing style.  Alternatives are
    tried left to right and repetition is greedy, as in [re]; the only
    repeated items in the module's patterns are character classes, so
    [Star] repeats a class.  The state carries the character before the
    current position, which [\b] and the look-behind need. *)

Module Re.

Inductive regex : Type :=
| Eps
| Cls (p : ascii -> bool)
| Seq (r1 r2 : regex)
| Alt (r1 r2 : regex)
| Star (p : ascii -> bool)
| Bnd
| Behind (p : ascii -> bool)
| Ahead (p : ascii -> bool)
| Grp (i : nat) (r : regex).

Record mstate : Type := MState {
  pos : nat;                         (* characters consumed since the start *)
  prev : option ascii;               (* the character just before [rest] *)
  rest : string;                     (* what is left of the subject *)
  caps : list (nat * (nat * nat))    (* group number, start, end; newest first *)
}.

Definition advance (c : ascii) (s' : string) (st : mstate) : mstate :=
  MState (S (pos st)) (Some c) s' (caps st).

Definition set_cap (i a b : nat) (st : mstate) : mstate :=
  MState (pos st) (prev st) (rest st) ((i, (a, b)) :: caps st).

Definition word_before (pv : option ascii) : bool :=
  match pv with Some c => Char.is_word c | None => false end.

Definition word_after (s : string) : bool :=
  match s with String c _ => Char.is_word c | EmptyString => false end.

(** [\b]: exactly one side of the position is a word character. *)
Definition at_boundary (pv : option ascii) (s : string) : bool :=
  xorb (word_before pv) (word_after s).

Definition orelse {A} (x : option A) (y : option A) : option A :=
  match x with Some _ => x | None => y end.

Fixpoint star (p : ascii -> bool) (k : mstate -> option mstate)
    (n : nat) (pv : option ascii) (cs : list (nat * (nat * nat)))
    (s : string) : option mstate :=
  match s with
  | String c s' =>
      if p c
      then orelse (star p k (S n) (Some c) cs s') (k (MState n pv s cs))
      else k (MState n pv s cs)
  | EmptyString => k (MState n pv s cs)
  end.

Fixpoint exec (r : regex) (st : mstate) (k : mstate -> option mstate)
    : option mstate :=
  match r with
  | Eps => k st
  | Cls p =>
      match rest st with
      | String c s' => if p c then k (advance c s' st) else None
      | EmptyString => None
      end
  | Seq r1 r2 => exec r1 st (fun st' => exec r2 st' k)
  | Alt r1 r2 => orelse (exec r1 st k) (exec r2 st k)
  | Star p => star p k (pos st) (prev st) (caps st) (rest st)
  | Bnd => if at_boundary (prev st) (rest st) then k st else None
  | Behind p =>
      match prev st with
      | Some c => if p c then k st else None
      | None => None
      end
  | Ahead p =>
      match rest st with
      | String c _ => if p c then k st else None
      | EmptyString => None
      end
  | Grp i r1 => exec r1 st (fun st' => k (set_cap i (pos st) (pos st') st'))
  end.

(** Derived forms. *)
Definition Plus (p : ascii -> bool) : regex := Seq (Cls p) (Star p).
Definition Opt (r : regex) : regex := Alt r Eps.

Fixpoint seqs (rs : list regex) : regex :=
  match rs with
  | [] => Eps
  | [r] => r
  | r :: rs' => Seq r (seqs rs')
  end.

Fixpoint alts (r : regex) (rs : list regex) : regex :=
  match rs with
  | [] => r
  | r' :: rs' => Alt r (alts r' rs')
  end.

(** A literal string, as compiled from [re.escape]. *)
Fixpoint lit (s : string) : regex :=
  match s with
  | EmptyString => Eps
  | String c s' => Seq (Cls (Char.eqb c)) (lit s')
  end.

(** A literal string under [re.I]. *)
Fixpoint lit_ci (s : string) : regex :=
  match s with
  | EmptyString => Eps
  | String c s' => Seq (Cls (Char.eqb_ci c)) (lit_ci s')
  end.

(** A match object: the subject from the start of the match on, and the
    final state of the matcher. *)
Record rmatch : Type := RMatch { m_subject : string; m_final : mstate }.

Definition m_len (m : rmatch) : nat := pos (m_final m).

Fixpoint lookup_cap (i : nat) (cs : list (nat * (nat * nat))) : option (nat * nat) :=
  match cs with
  | [] => None
  | (j, ab) :: cs' => if Nat.eqb i j then Some ab else lookup_cap i cs'
  end.

(** [m.group(i)] for a group that took part in the match. *)
Definition group (i : nat) (m : rmatch) : string :=
  match lookup_cap i (caps (m_final m)) with
  | Some (a, b) => substring a (b - a) (m_subject m)
  | None => EmptyString
  end.

(** A match of [r] that starts exactly here. *)
Definition match_here (r : regex) (pv : option ascii) (s : string) : option rmatch :=
  match exec r (MState 0 pv s []) Some with
  | Some st => Some (RMatch s st)
  | None => None
  end.

(** [r.search(s)]: the leftmost position at which [r] matches. *)
Fixpoint search_from (r : regex) (pv : option ascii) (s : string) : option rmatch :=
  match match_here r pv s with
  | Some m => Some m
  | None =>
      match s with
      | String c s' => search_from r (Some c) s'
      | EmptyString => None
      end
  end.

Definition search (r : regex) (s : string) : option rmatch := search_from r None s.

(** [bool(r.search(s))] *)
Definition found (r : regex) (s : string) : bool :=
  match search r s with Some _ => true | None => false end.

(** The three scanning functions below serve patterns that consume at least
    one character whenever they match, which all patterns given to
    [finditer], [sub] and [split] in the module do; [skip] counts the
    characters of the last match that are still to be passed over. *)

(** [re.finditer(r, s)] *)
Fixpoint finditer_from (r : regex) (skip : nat) (pv : option ascii) (s : string)
    : list rmatch :=
  match s with
  | EmptyString => []
  | String c s' =>
      match skip with
      | S n => finditer_from r n (Some c) s'
      | O =>
          match match_here r pv s with
          | Some m =>
              match m_len m with
              | S n => m :: finditer_from r n (Some c) s'
              | O => finditer_from r 0 (Some c) s'
              end
          | None => finditer_from r 0 (Some c) s'
          end
      end
  end.

Definition finditer (r : regex) (s : string) : list rmatch := finditer_from r 0 None s.

(** [re.sub(r, repl, s)] for a replacement without group references. *)
Fixpoint sub_from (r : regex) (repl : string) (skip : nat) (pv : option ascii)
    (s : string) : string :=
  match s with
  | EmptyString => EmptyString
  | String c s' =>
      match skip with
      | S n => sub_from r repl n (Some c) s'
      | O =>
          match match_here r pv s with
          | Some m =>
              match m_len m with
              | S n => repl +:+ sub_from r repl n (Some c) s'
              | O => String c (sub_from r repl 0 (Some c) s')
              end
          | None => String c (sub_from r repl 0 (Some c) s')
          end
      end
  end.

Definition sub (r : regex) (repl s : string) : string := sub_from r repl 0 None s.

(** [re.split(r, s)] for a pattern without capturing groups; [cur] holds the
    characters of the piece being read, last one first. *)
Fixpoint split_from (r : regex) (skip : nat) (cur : list ascii)
    (pv : option ascii) (s : string) : list string :=
  match s with
  | EmptyString => [string_of_list_ascii (rev cur)]
  | String c s' =>
      match skip with
      | S n => split_from r n cur (Some c) s'
      | O =>
          match match_here r pv s with
          | Some m =>
              match m_len m with
              | S n => string_of_list_ascii (rev cur) :: split_from r n [] (Some c) s'
              | O => split_from r 0 (c :: cur) (Some c) s'
              end
          | None => split_from r 0 (c :: cur) (Some c) s'
          end
      end
  end.

Definition split (r : regex) (s : string) : list string := split_from r 0 [] None s.

End Re.

(** ** Python values and insertion-ordered dictionaries *)

(** What [json.load] can return. *)
#[local] Unset Elimination Schemes.
Inductive pyval : Type :=
| PNone
| PBool (b : bool)
| PNum (n : Z)
| PStr (s : string)
| PList (l : list pyval)
| PDict (d : list (string * pyval)).
#[local] Set Elimination Schemes.

(** A [dict] that is iterated: its items in insertion order. *)
Definition odict (V : Type) : Type := list (string * V).

(** [d.get(k)] *)
Fixpoint dict_get {V} (k : string) (d : odict V) : option V :=
  match d with
  | [] => None
  | (k', v) :: d' => if decide (k = k') then Some v else dict_get k d'
  end.

(** [d[k] = v]: a present key keeps its place, a new key goes last. *)
Fixpoint dict_set {V} (k : string) (v : V) (d : odict V) : odict V :=
  match d with
  | [] => [(k, v)]
  | (k', v') :: d' =>
      if decide (k = k') then (k, v) :: d' else (k', v') :: dict_set k v d'
  end.

(** Truth value of a [str]. *)
Definition truthy (s : string) : bool := negb (Str.is_empty s).

(** ** Search-term expansion: [_build_property_search_terms] *)

(** [[s for s in syn_list if isinstance(s, str)]] *)
Fixpoint str_items (l : list pyval) : list string :=
  match l with
  | [] => []
  | PStr s :: l' => s :: str_items l'
  | _ :: l' => str_items l'
  end.

(** The inner loop of the flattening, over the items of one category. *)
Definition flatten_category (acc : odict (list string)) (mappings : odict pyval)
    : odict (list string) :=
  fold_left
    (fun acc '(canonical, syn_list) =>
       match syn_list with
       | PList l => dict_set canonical (str_items l) acc
       | _ => acc
       end)
    mappings acc.

(** The first loop: [all_mappings], collected from all categories. *)
Definition all_mappings_of (synonyms_data : odict pyval) : odict (list string) :=
  fold_left
    (fun acc '(category, mappings) =>
       match mappings with
       | PDict m => flatten_category acc m
       | _ => acc
       end)
    synonyms_data [].

(** [if t not in term_to_canonical: term_to_canonical[t] = canonical] *)
Definition claim (t canonical : string) (idx : gmap string string)
    : gmap string string :=
  match idx !! t with
  | Some _ => idx
  | None => <[t := canonical]> idx
  end.

(** The body of the second loop for one canonical and its synonyms. *)
Definition index_group (idx : gmap string string) (canonical : string)
    (syns : list string) : gmap string string :=
  fold_left (fun idx s => claim (Str.lower s) canonical idx) syns
            (claim (Str.lower canonical) canonical idx).

(** The second loop: [term_to_canonical], started from [idx]. *)
Definition index_from (idx : gmap string string) (all_mappings : odict (list string))
    : gmap string string :=
  fold_left (fun idx '(canonical, syns) => index_group idx canonical syns)
            all_mappings idx.

Definition term_to_canonical_of (all_mappings : odict (list string))
    : gmap string string :=
  index_from ∅ all_mappings.

(** [[r.strip().lower() for r in requested if r.strip()]] *)
Definition requested_lower_of (requested : list string) : list string :=
  List.map (fun r => Str.lower (Str.strip r))
           (List.filter (fun r => truthy (Str.strip r)) requested).

(** [{canonical} | set(all_mappings.get(canonical, []))] *)
Definition group_of (all_mappings : odict (list string)) (canonical : string)
    : gset string :=
  {[ canonical ]} ∪ list_to_set (default [] (dict_get canonical all_mappings)).

(** The body of the third loop for one requested term. *)
Definition expand_one (all_mappings : odict (list string))
    (term_to_canonical : gmap string string)
    (search_terms : gset string) (req : string) : gset string :=
  match term_to_canonical !! req with
  | Some canonical =>
      if truthy canonical
      then search_terms ∪ group_of all_mappings canonical
      else search_terms ∪ {[ req ]}
  | None => search_terms ∪ {[ req ]}
  end.

Definition _build_property_search_terms (requested : list string)
    (synonyms_data : odict pyval) : gset string :=
  let all_mappings := all_mappings_of synonyms_data in
  let term_to_canonical := term_to_canonical_of all_mappings in
  fold_left (expand_one all_mappings term_to_canonical)
            (requested_lower_of requested) ∅.

(** ** The value patterns [NUM_UNIT] and [NUM_ONLY] *)

Definition degree_sign : ascii := ascii_of_N 176.
Definition middle_dot : ascii := ascii_of_N 183.

Definition is_dot : ascii -> bool := Char.is_cp 46.

(** The alternatives of the unit group, in the order of the source. *)
Definition unit_alternatives : Re.regex :=
  Re.alts (Re.lit_ci (String degree_sign "c"))
    [ Re.lit_ci (String degree_sign "C");
      Re.lit_ci "K";
      Re.lit_ci "GPa";
      Re.lit_ci "MPa";
      Re.lit_ci "kDa";
      Re.lit_ci "Da";
      Re.lit_ci "kg/mol";
      Re.lit_ci "g/mol";
      Re.lit_ci ("Pa" +:+ String middle_dot "s");
      Re.seqs [Re.lit_ci "Pa"; Re.Star Char.is_space; Re.lit_ci "s"];
      Re.lit_ci "wt%";
      Re.lit_ci "mol%" ].

(** [\d+(\.\d+)?], with the number of its group. *)
Definition number (g : nat) : Re.regex :=
  Re.Seq (Re.Plus Char.is_digit)
         (Re.Opt (Re.Grp g (Re.Seq (Re.Cls is_dot) (Re.Plus Char.is_digit)))).

(** [(?i)\b\d+(\.\d+)?\s*(...)\b] *)
Definition NUM_UNIT : Re.regex :=
  Re.seqs [Re.Bnd; number 1; Re.Star Char.is_space; Re.Grp 2 unit_alternatives; Re.Bnd].

(** [\b\d+(\.\d+)?\b] *)
Definition NUM_ONLY : Re.regex :=
  Re.seqs [Re.Bnd; number 1; Re.Bnd].

(** ** Sentence splitting: [_split_into_sentences] *)

(** [\s+] *)
Definition WHITESPACE : Re.regex := Re.Plus Char.is_space.

(** [(?<=[.!?])\s+(?=[A-Z])] *)
Definition SENTENCE_BREAK : Re.regex :=
  Re.seqs [Re.Behind Char.is_stop; Re.Plus Char.is_space; Re.Ahead Char.is_AZ].

Definition _split_into_sentences (text : string) : list string :=
  if Str.is_empty text then []
  else
    let text := Re.sub WHITESPACE " " text in
    let parts := Re.split SENTENCE_BREAK text in
    List.map Str.strip
      (List.filter (fun p => Nat.ltb 15 (String.length (Str.strip p))) parts).

(** ** Triple detection *)

Definition is_lparen : ascii -> bool := Char.is_cp 40.
Definition not_rparen (c : ascii) : bool := negb (Char.is_cp 41 c).

(** [\bpoly\s*\(\s*([^)]+)\)] under [re.I] *)
Definition POLY_BRACKET : Re.regex :=
  Re.seqs [Re.Bnd; Re.lit_ci "poly"; Re.Star Char.is_space; Re.Cls is_lparen;
           Re.Star Char.is_space; Re.Grp 1 (Re.Plus not_rparen);
           Re.Cls (Char.is_cp 41)].

(** [\b(poly(?:vinyl|styrene|...))\b] under [re.I] *)
Definition POLY_CLASS : Re.regex :=
  Re.seqs [Re.Bnd;
           Re.Grp 1 (Re.Seq (Re.lit_ci "poly")
             (Re.alts (Re.lit_ci "vinyl")
                [ Re.lit_ci "styrene"; Re.lit_ci "ethylene"; Re.lit_ci "propylene";
                  Re.lit_ci "ester"; Re.lit_ci "amide"; Re.lit_ci "ether";
                  Re.lit_ci "urethane"; Re.lit_ci "imide"; Re.lit_ci "saccharide" ]));
           Re.Bnd].

Definition _regex_poly_patterns (sentence : string) : list string :=
  (List.map (fun m => "poly(" +:+ Str.strip (Re.group 1 m) +:+ ")")
            (Re.finditer POLY_BRACKET sentence)
   ++ List.map (Re.group 1) (Re.finditer POLY_CLASS sentence))%list.

Definition POLYMER_TERMS : gset string :=
  list_to_set
    [ "polymer"; "polymers"; "macromolecule"; "macromolecules"; "copolymer";
      "copolymers"; "homopolymer"; "homopolymers"; "oligomer"; "oligomers" ].

(** [r"\b" + re.escape(term.lower()) + r"\b"] *)
Definition whole_word (term : string) : Re.regex :=
  Re.seqs [Re.Bnd; Re.lit (Str.lower term); Re.Bnd].

(** The terms are visited in the iteration order of the set. *)
Definition _find_whole_word (sentence : string) (terms : gset string) : list string :=
  let s_lower := Str.lower sentence in
  List.filter (fun term => Re.found (whole_word term) s_lower) (elements terms).

Definition is_nil {A} (l : list A) : bool :=
  match l with [] => true | _ :: _ => false end.

(** [bool(NUM_UNIT.search(sentence)) or bool(NUM_ONLY.search(sentence))] *)
Definition has_num_of (sentence : string) : bool :=
  Re.found NUM_UNIT sentence || Re.found NUM_ONLY sentence.

Definition _has_valid_triple (sentence : string) (property_terms : gset string) : bool :=
  let polys :=
    (_find_whole_word sentence POLYMER_TERMS ++ _regex_poly_patterns sentence)%list in
  if is_nil polys then false
  else
    let props := _find_whole_word sentence property_terms in
    if is_nil props then false
    else
      let has_num := has_num_of sentence in
      if negb has_num then false
      else true.

(** ** One document: [_build_full_text], [is_paper_with_property_triples] *)

(** What the section parser hands over, after the [.get] defaults of the
    caller: the title, the sections in order, the [content] of each table. *)
Record parsed : Type := Parsed {
  title : string;
  sections : odict string;
  tables : list string
}.

Definition _build_full_text (doc : parsed) : string :=
  let parts := [title doc] in
  let parts :=
    (parts ++ List.map snd
       (List.filter (fun '(section_name, section_text) =>
                       truthy section_text && truthy (Str.strip section_text))
                    (sections doc)))%list in
  let parts :=
    (parts ++ List.filter truthy (List.map Str.strip (tables doc)))%list in
  Str.join " " parts.

Definition REASON_FOUND : string := "found (polymer, property, value) triple".
Definition REASON_NONE : string := "no matching (polymer, property, value) triples".

(** The [for] loop with its early [return]. *)
Fixpoint scan_sentences (sents : list string) (property_terms : gset string)
    : bool * string :=
  match sents with
  | [] => (false, REASON_NONE)
  | sent :: sents' =>
      if _has_valid_triple sent property_terms then (true, REASON_FOUND)
      else scan_sentences sents' property_terms
  end.

Definition is_paper_with_property_triples (full_text : string)
    (property_terms : gset string) : bool * string :=
  scan_sentences (_split_into_sentences full_text) property_terms.

(** ** The corpus loop: [filter_papers] *)

(** The result of a call that may raise an [Exception]; [Raised] carries
    [str(e)]. *)
Inductive outcome (A : Type) : Type :=
| Returned (a : A)
| Raised (msg : string).
Arguments Returned {A} a.
Arguments Raised {A} msg.

(** The two lists the loop fills, in processing order; the function returns
    [passing] and writes both to the files it was given. *)
Record tally : Type := Tally {
  passing : list string;
  failing : list (string * string)
}.

(** [{t.lower() for t in property_terms if t.strip()}] *)
Definition literal_terms (property_terms : list string) : gset string :=
  list_to_set
    (List.map Str.lower
       (List.filter (fun t => truthy (Str.strip t)) property_terms)).

(** The search terms of a run, with the fall-back for an empty expansion. *)
Definition search_terms_of (property_terms : list string)
    (synonyms_data : odict pyval) : gset string :=
  let search_terms := _build_property_search_terms property_terms synonyms_data in
  if decide (search_terms = ∅) then literal_terms property_terms
  else search_terms.

Section Corpus.

(** [RSCSectionParser(path, include_tables=True).to_dict()], which lives
    outside the module. *)
Variable parse : string -> outcome parsed.

(** The body of the [for] loop. *)
Definition visit (search_terms : gset string) (t : tally) (path : string) : tally :=
  match parse path with
  | Raised e =>
      Tally (passing t) (failing t ++ [(path, "parse error: " +:+ e)])%list
  | Returned result =>
      let full_text := _build_full_text result in
      let '(ok, reason) := is_paper_with_property_triples full_text search_terms in
      if ok then Tally (passing t ++ [path])%list (failing t)
      else Tally (passing t) (failing t ++ [(path, reason)])%list
  end.

(** [html_files] is the sorted list of the folder's HTML files and
    [synonyms_data] what [_load_polymer_synonyms] returned. *)
Definition filter_papers (html_files : list string) (property_terms : list string)
    (synonyms_data : odict pyval) : tally :=
  let search_terms := search_terms_of property_terms synonyms_data in
  if is_nil html_files then Tally [] []
  else fold_left (visit search_terms) html_files (Tally [] []).

(** What one document adds to each list, for the statements below. *)
Definition passes (search_terms : gset string) (path : string) : bool :=
  match parse path with
  | Raised _ => false
  | Returned result =>
      (is_paper_with_property_triples (_build_full_text result) search_terms).1
  end.

Definition failure_of (search_terms : gset string) (path : string)
    : option (string * string) :=
  match parse path with
  | Raised e => Some (path, "parse error: " +:+ e)
  | Returned result =>
      let verdict :=
        is_paper_with_property_triples (_build_full_text result) search_terms in
      if verdict.1 then None else Some (path, verdict.2)
  end.

End Corpus.

(** ** Loading the synonyms: [_load_polymer_synonyms] *)

(** [k.startswith("_")] *)
Definition starts_with_underscore (k : string) : bool :=
  match k with String c _ => Char.is_cp 95 c | EmptyString => false end.

(** [isinstance(v, dict)] *)
Definition is_dict (v : pyval) : bool :=
  match v with PDict _ => true | _ => false end.

(** [file] is [None] when the path does not exist and otherwise what
    [json.load] read; a top-level value without [.items()] raises. *)
Definition _load_polymer_synonyms (file : option pyval) : outcome (odict pyval) :=
  match file with
  | None => Returned []
  | Some (PDict data) =>
      Returned (List.filter (fun '(k, v) => is_dict v && starts_with_underscore k) data)
  | Some _ => Raised "AttributeError"
  end.

(** ** The command line: the property terms of [main] *)

(** The line boundaries of [str.splitlines] below code point 256. *)
Definition is_linebreak (c : ascii) : bool :=
  Char.in_range 10 13 c || Char.in_range 28 30 c || Char.is_cp 133 c.

Definition is_cr : ascii -> bool := Char.is_cp 13.
Definition is_lf : ascii -> bool := Char.is_cp 10.

(** [s.splitlines()]; [after_cr] says that the last line ended in a
    carriage return, whose line feed is still to be passed over, and [cur]
    holds the characters of the line being read, last one first. *)
Fixpoint splitlines_from (after_cr : bool) (cur : list ascii) (s : string)
    : list string :=
  match s with
  | EmptyString =>
      match cur with
      | [] => []
      | _ :: _ => [string_of_list_ascii (rev cur)]
      end
  | String c s' =>
      if after_cr && is_lf c then splitlines_from false cur s'
      else if is_linebreak c
      then string_of_list_ascii (rev cur) :: splitlines_from (is_cr c) [] s'
      else splitlines_from false (c :: cur) s'
  end.

Definition splitlines (s : string) : list string := splitlines_from false [] s.

(** [text.startswith("[")] *)
Definition starts_with_bracket (text : string) : bool :=
  match text with String c _ => Char.is_cp 91 c | EmptyString => false end.

(** [[line.strip() for line in text.splitlines() if line.strip()]] *)
Definition terms_of_lines (text : string) : list string :=
  List.map Str.strip
    (List.filter (fun line => truthy (Str.strip line)) (splitlines text)).

(** The property terms [main] hands to [filter_papers]: [properties] holds
    the [--properties] arguments, [properties_file] the content of the
    [--properties-file] when one is given and exists, and [json_loads] is
    [json.loads] for a file that holds a list of strings. *)
Definition property_terms_of (json_loads : string -> outcome (list string))
    (properties : list string) (properties_file : option string)
    : outcome (list string) :=
  match properties_file with
  | Some file_text =>
      let text := Str.strip file_text in
      if starts_with_bracket text then json_loads text
      else Returned (terms_of_lines text)
  | None => Returned properties
  end.

(** ** The files [filter_papers] writes *)

Definition line_feed : ascii := ascii_of_N 10.
Definition tab : ascii := ascii_of_N 9.

(** The content of [output_file]: [f"{p.name}\n"] for each passing paper. *)
Fixpoint output_file_text (passing : list string) : string :=
  match passing with
  | [] => EmptyString
  | p :: rest => p +:+ String line_feed (output_file_text rest)
  end.

(** The content of [failures_file]: [f"{p.name}\t{reason}\n"] for each
    failing paper. *)
Fixpoint failures_file_text (failing : list (string * string)) : string :=
  match failing with
  | [] => EmptyString
  | (p, reason) :: rest =>
      p +:+ String tab (reason +:+ String line_feed (failures_file_text rest))
  end.

(** ** Aggregation of extracted results: [aggregate_extracted.py] *)

(** [d.get(k)] and [d.get(k, default)] on a dictionary. *)
Definition py_get (k : string) (d : odict pyval) : pyval :=
  default PNone (dict_get k d).

Definition py_get_or (k : string) (dflt : pyval) (d : odict pyval) : pyval :=
  default dflt (dict_get k d).

(** [x.get] needs a dictionary; on another value the attribute is missing. *)
Definition as_dict (v : pyval) : outcome (odict pyval) :=
  match v with
  | PDict d => Returned d
  | _ => Raised "AttributeError"
  end.

(** What a [for] loop over the value visits: the items of a list, the
    characters of a string, the keys of a dictionary; other values are not
    iterable. *)
Definition py_iter (v : pyval) : outcome (list pyval) :=
  match v with
  | PList l => Returned l
  | PStr s => Returned (List.map (fun c => PStr (String c EmptyString)) (Str.chars s))
  | PDict d => Returned (List.map (fun kv => PStr kv.1) d)
  | _ => Raised "TypeError"
  end.

(** Sequencing of calls that may raise. *)
Definition and_then {A B} (x : outcome A) (f : A -> outcome B) : outcome B :=
  match x with
  | Returned a => f a
  | Raised e => Raised e
  end.

(** [if not isinstance(data, list): data = [data]] *)
Definition load_extracted (data : pyval) : list pyval :=
  match data with
  | PList l => l
  | _ => [data]
  end.

Definition PAPER_KEYS : list string :=
  ["doi"; "title"; "source_file"; "subfield"; "time_spent_seconds"].

Definition COMPOSITION_KEYS : list string :=
  ["composition"; "composition_standard"; "composition_abbreviations_resolved";
   "processing_conditions"].

Definition PROPERTY_KEYS : list string :=
  ["property_name"; "property_symbol"; "property_name_original"; "value";
   "value_numeric"; "value_numeric_si"; "unit"; "unit_si"; "value_type";
   "value_error"; "measurement_condition"; "additional_information"; "confidence"].

(** The dictionary [{k: d.get(k) for each key}] that the source writes out
    key by key. *)
Definition pick (keys : list string) (d : odict pyval) : odict pyval :=
  List.map (fun k => (k, py_get k d)) keys.

(** The innermost loop: one row for each property of a composition. *)
Fixpoint rows_of_properties (paper_meta comp_meta : odict pyval)
    (props : list pyval) : outcome (list (odict pyval)) :=
  match props with
  | [] => Returned []
  | prop :: rest =>
      and_then (as_dict prop) (fun p =>
      let row := (paper_meta ++ comp_meta ++ pick PROPERTY_KEYS p)%list in
      and_then (rows_of_properties paper_meta comp_meta rest) (fun rows =>
      Returned (row :: rows)))
  end.

(** The middle loop, over the compositions of a paper. *)
Fixpoint rows_of_compositions (paper_meta : odict pyval) (comps : list pyval)
    : outcome (list (odict pyval)) :=
  match comps with
  | [] => Returned []
  | comp :: rest =>
      and_then (as_dict comp) (fun c =>
      let comp_meta := pick COMPOSITION_KEYS c in
      and_then (py_iter (py_get_or "properties_of_composition" (PList []) c)) (fun props =>
      and_then (rows_of_properties paper_meta comp_meta props) (fun rows =>
      and_then (rows_of_compositions paper_meta rest) (fun more =>
      Returned (rows ++ more)%list))))
  end.

(** The rows handed to [pd.DataFrame], or the exception that ends the
    call. *)
Fixpoint aggregate_to_dataframe (data : list pyval) : outcome (list (odict pyval)) :=
  match data with
  | [] => Returned []
  | paper :: rest =>
      and_then (as_dict paper) (fun p =>
      let paper_meta := pick PAPER_KEYS p in
      and_then (py_iter (py_get_or "compositions" (PList []) p)) (fun comps =>
      and_then (rows_of_compositions paper_meta comps) (fun rows =>
      and_then (aggregate_to_dataframe rest) (fun more =>
      Returned (rows ++ more)%list))))
  end.

(** * Vocabulary of the statements *)

(** What [lstrip] returns does not start with a space. *)
Definition starts_clean (s : string) : Prop :=
  match s with String c _ => Char.is_space c = false | EmptyString => True end.

(** The group of [canonical] lays claim to the term [t]. *)
Definition claims (t canonical : string) (syns : list string) : Prop :=
  t = Str.lower canonical \/ exists s, s ∈ syns /\ t = Str.lower s.

(** What one requested term adds to the result. *)
Definition contribution (all_mappings : odict (list string))
    (term_to_canonical : gmap string string) (req : string) : gset string :=
  expand_one all_mappings term_to_canonical ∅ req.

Definition thermal_graph : odict pyval :=
  [("_thermal", PDict [("Tg", PList [PStr "Glass Transition"])])].

Definition nameless_graph : odict pyval :=
  [("_props", PDict [(EmptyString, PList [PStr "tg"; PStr "glass transition"])])].

(** A sufficient syntactic test for a pattern that consumes at least one
    character whenever it matches. *)
Fixpoint eats (r : Re.regex) : bool :=
  match r with
  | Re.Cls _ => true
  | Re.Seq r1 r2 => eats r1 || eats r2
  | Re.Alt r1 r2 => eats r1 && eats r2
  | Re.Grp _ r1 => eats r1
  | _ => false
  end.

(** [st1] lies at least [n] characters further into the same subject. *)
Definition further (n : nat) (st st1 : Re.mstate) : Prop :=
  Re.pos st + n <= Re.pos st1
  /\ Re.pos st1 + String.length (Re.rest st1) = Re.pos st + String.length (Re.rest st).

(** Some term of the set occurs in the sentence as a whole word, case
    ignored. *)
Definition word_hit (sentence : string) (terms : gset string) : bool :=
  existsb (fun term => Re.found (whole_word term) (Str.lower sentence))
          (elements terms).

(** A generic polymer noun, a bracketed [poly(...)] or a polymer class name. *)
Definition polymer_signal (sentence : string) : bool :=
  word_hit sentence POLYMER_TERMS
  || Re.found POLY_BRACKET sentence
  || Re.found POLY_CLASS sentence.

Definition property_signal (sentence : string) (property_terms : gset string) : bool :=
  word_hit sentence property_terms.

(** A number with a unit, or a bare number. *)
Definition value_signal (sentence : string) : bool :=
  Re.found NUM_UNIT sentence || Re.found NUM_ONLY sentence.

Definition mw_sentence : string := "The polymer had a Mw of 105kDa.".

(** No character of the string is one of [.], [!], [?]. *)
Definition stop_free (s : string) : Prop :=
  forall c, c ∈ Str.chars s -> Char.is_stop c = false.

Definition stop_before (pv : option ascii) : bool :=
  match pv with Some c => Char.is_stop c | None => false end.

Definition plain_text : string := "glass transition temperature of the polymer".

Definition pmma_text : string :=
  "The polymer poly(methyl methacrylate) showed a Tg of 105 C in this study. The sample was characterized using standard methods.".

Definition methods_text : string :=
  "The sample was characterized using standard methods.".

(** A parser for a folder of three files, the second of which is broken. *)
Definition sample_parse (path : string) : outcome parsed :=
  if decide (path = "a.html")
  then Returned (Parsed EmptyString [("Results", pmma_text)] [])
  else if decide (path = "b.html")
  then Raised "not an article"
  else Returned (Parsed EmptyString [("Methods", methods_text)] []).

(** The qualifying sentence of the written specification, with its degree
    sign. *)
Definition pmma_sentence : string :=
  "The polymer poly(methyl methacrylate) showed a Tg of 105 "
  +:+ String degree_sign "C in this study.".



(** No character of the string is a decimal digit. *)
Definition digit_free (s : string) : Prop :=
  forall c, c ∈ Str.chars s -> Char.is_digit c = false.

(** [p] occurs in [t] as a contiguous run of characters. *)
Definition occurs_in (p t : string) : Prop :=
  exists a b : list ascii, Str.chars t = (a ++ Str.chars p ++ b)%list.

(** The character before the position reached by reading [a], when the
    character before [a] is [pv]. *)
Fixpoint prev_after (pv : option ascii) (a : string) : option ascii :=
  match a with
  | EmptyString => pv
  | String c a' => prev_after (Some c) a'
  end.

(** [t] occurs in [s] right after [a], with a word boundary on each side. *)
Definition whole_word_at (t a s : string) : Prop :=
  exists b,
    s = a +:+ t +:+ b
    /\ Re.at_boundary (prev_after None a) (t +:+ b) = true
    /\ Re.at_boundary (prev_after (prev_after None a) t) b = true.

(** Whitespace is normalised: every whitespace character is the plain
    space and no two whitespace characters are adjacent. *)
Fixpoint single_spaced (l : list ascii) : Prop :=
  match l with
  | [] => True
  | c :: l' =>
      (Char.is_space c = true ->
       c = " "%char
       /\ match l' with c' :: _ => Char.is_space c' = false | [] => True end)
      /\ single_spaced l'
  end.

(** The number of whitespace characters at the start of the string. *)
Fixpoint leading_spaces (s : string) : nat :=
  match s with
  | String c s' => if Char.is_space c then S (leading_spaces s') else 0
  | EmptyString => 0
  end.

(** No character of the string ends a line. *)
Definition linebreak_free (s : string) : Prop :=
  forall c, c ∈ Str.chars s -> is_linebreak c = false.

(** The columns of the aggregated table. *)
Definition COLUMNS : list string :=
  (PAPER_KEYS ++ COMPOSITION_KEYS ++ PROPERTY_KEYS)%list.

(** A list of dictionaries, which is what the extraction writes for the
    compositions of a paper and the properties of a composition. *)
Fixpoint all_dicts (l : list pyval) : option (list (odict pyval)) :=
  match l with
  | [] => Some []
  | PDict d :: l' =>
      match all_dicts l' with
      | Some ds => Some (d :: ds)
      | None => None
      end
  | _ :: _ => None
  end.

Definition dicts_of (v : pyval) : option (list (odict pyval)) :=
  match v with
  | PList l => all_dicts l
  | _ => None
  end.

(** The properties of a composition, the compositions of a paper and the
    papers of a file, when the file has the shape the extraction writes. *)
Definition properties_in (comp : odict pyval) : option (list (odict pyval)) :=
  dicts_of (py_get_or "properties_of_composition" (PList []) comp).

Definition compositions_in (paper : odict pyval) : option (list (odict pyval)) :=
  dicts_of (py_get_or "compositions" (PList []) paper).

(** The number of properties a well-shaped composition and a well-shaped
    paper hold. *)
Definition properties_of_composition_count (comp : odict pyval) : nat :=
  match properties_in comp with
  | Some props => length props
  | None => 0
  end.

Definition properties_of_paper_count (paper : odict pyval) : nat :=
  match compositions_in paper with
  | Some comps => list_sum (List.map properties_of_composition_count comps)
  | None => 0
  end.

(** The file has the shape the extraction writes: the compositions of each
    paper, and the properties of each composition, are lists of
    dictionaries (or absent). *)
Definition well_shaped (papers : list (odict pyval)) : Prop :=
  forall paper, paper ∈ papers ->
    exists comps, compositions_in paper = Some comps
      /\ forall comp, comp ∈ comps -> is_Some (properties_in comp).

(** A file with one paper, one composition and two properties. *)
Definition sample_paper : odict pyval :=
  [("doi", PStr "10.1039/x");
   ("compositions",
    PList [PDict [("composition", PStr "PMMA");
                  ("properties_of_composition",
                   PList [PDict [("property_name", PStr "glass transition temperature");
                                 ("value", PStr "105"); ("unit", PStr "C")];
                          PDict [("property_name", PStr "molar mass")]])]])].

Definition sample_row : odict pyval :=
  (pick PAPER_KEYS sample_paper
   ++ pick COMPOSITION_KEYS [("composition", PStr "PMMA")]
   ++ pick PROPERTY_KEYS [("property_name", PStr "molar mass")])%list.

(** * Properties *)

(** ** Characters and strings *)

(** Closed decidable facts about sets and maps, by evaluation. *)
Ltac decide_by_evaluation :=
  apply (bool_decide_unpack _); vm_compute; exact I.

Ltac by_cases_on_char c :=
  destruct c as [[] [] [] [] [] [] [] []]; vm_compute; reflexivity.

Lemma char_lower_idem (c : ascii) : Char.lower (Char.lower c) = Char.lower c.
Proof. by_cases_on_char c. Qed.

Lemma char_space_lower (c : ascii) : Char.is_space (Char.lower c) = Char.is_space c.
Proof. by_cases_on_char c. Qed.

Lemma char_stop_not_space (c : ascii) : Char.is_stop c = true -> Char.is_space c = false.
Proof. destruct c as [[] [] [] [] [] [] [] []]; vm_compute; congruence. Qed.

Lemma str_lower_idem (s : string) : Str.lower (Str.lower s) = Str.lower s.
Proof.
  unfold Str.lower. induction s as [|c s IH]; simpl; [reflexivity|].
  by rewrite char_lower_idem, IH.
Qed.

Lemma str_lower_is_lower (s : string) : Str.is_lower (Str.lower s).
Proof. apply str_lower_idem. Qed.

Lemma str_is_empty_lower (s : string) : Str.is_empty (Str.lower s) = Str.is_empty s.
Proof. by destruct s. Qed.

Lemma str_is_empty_true (s : string) : Str.is_empty s = true <-> s = EmptyString.
Proof. destruct s; simpl; split; congruence. Qed.

Lemma str_lstrip_lower (s : string) : Str.lstrip (Str.lower s) = Str.lower (Str.lstrip s).
Proof.
  unfold Str.lower. induction s as [|c s IH]; simpl; [reflexivity|].
  rewrite char_space_lower. destruct (Char.is_space c); [exact IH|reflexivity].
Qed.

Lemma str_rstrip_lower (s : string) : Str.rstrip (Str.lower s) = Str.lower (Str.rstrip s).
Proof.
  unfold Str.lower. induction s as [|c s IH]; simpl; [reflexivity|].
  rewrite char_space_lower, IH.
  replace (Str.is_empty (Str.map Char.lower (Str.rstrip s)))
    with (Str.is_empty (Str.rstrip s)) by (by destruct (Str.rstrip s)).
  by destruct (Char.is_space c && Str.is_empty (Str.rstrip s)).
Qed.

Lemma str_strip_lower (s : string) : Str.strip (Str.lower s) = Str.lower (Str.strip s).
Proof. unfold Str.strip. by rewrite str_lstrip_lower, str_rstrip_lower. Qed.

Lemma str_lstrip_clean (s : string) : starts_clean (Str.lstrip s).
Proof.
  induction s as [|c s IH]; simpl; [exact I|].
  destruct (Char.is_space c) eqn:E; [exact IH|exact E].
Qed.

Lemma str_lstrip_of_clean (s : string) : starts_clean s -> Str.lstrip s = s.
Proof. destruct s as [|c s]; simpl; [done|]. by intros ->. Qed.

Lemma str_rstrip_clean (s : string) : starts_clean s -> starts_clean (Str.rstrip s).
Proof.
  destruct s as [|c s]; simpl; [done|]. intros E. by rewrite E.
Qed.

Lemma str_rstrip_idem (s : string) : Str.rstrip (Str.rstrip s) = Str.rstrip s.
Proof.
  induction s as [|c s IH]; simpl; [reflexivity|].
  destruct (Char.is_space c && Str.is_empty (Str.rstrip s)) eqn:E; [reflexivity|].
  simpl. rewrite IH, E. reflexivity.
Qed.

Lemma str_strip_idem (s : string) : Str.strip (Str.strip s) = Str.strip s.
Proof.
  unfold Str.strip.
  rewrite (str_lstrip_of_clean (Str.rstrip (Str.lstrip s))).
  - apply str_rstrip_idem.
  - apply str_rstrip_clean, str_lstrip_clean.
Qed.

Lemma str_lower_inj_length (s : string) : String.length (Str.lower s) = String.length s.
Proof. unfold Str.lower. induction s as [|c s IH]; simpl; [reflexivity|]. by rewrite IH. Qed.

Lemma str_lstrip_length (s : string) : String.length (Str.lstrip s) <= String.length s.
Proof.
  induction s as [|c s IH]; simpl; [lia|]. destruct (Char.is_space c); simpl; lia.
Qed.

Lemma str_lstrip_fixed (s : string) :
  String.length (Str.lstrip s) = String.length s -> Str.lstrip s = s.
Proof.
  destruct s as [|c s]; simpl; [done|].
  destruct (Char.is_space c); [|done].
  intros H. pose proof (str_lstrip_length s). lia.
Qed.

Lemma str_rstrip_length (s : string) : String.length (Str.rstrip s) <= String.length s.
Proof.
  induction s as [|c s IH]; simpl; [lia|].
  destruct (Char.is_space c && Str.is_empty (Str.rstrip s)); simpl; lia.
Qed.

Lemma str_rstrip_fixed (s : string) :
  String.length (Str.rstrip s) = String.length s -> Str.rstrip s = s.
Proof.
  induction s as [|c s IH]; simpl; [done|].
  destruct (Char.is_space c && Str.is_empty (Str.rstrip s)); simpl; [lia|].
  intros H. f_equal. apply IH. lia.
Qed.

Lemma str_strip_fixed (s : string) :
  String.length (Str.strip s) = String.length s -> Str.strip s = s.
Proof.
  unfold Str.strip. intros H.
  pose proof (str_lstrip_length s). pose proof (str_rstrip_length (Str.lstrip s)).
  assert (Str.lstrip s = s) as E by (apply str_lstrip_fixed; lia).
  rewrite E in H |- *. by apply str_rstrip_fixed.
Qed.

(** A string whose lowercase form is trimmed is itself trimmed. *)
Lemma str_strip_of_lower_trimmed (s : string) :
  Str.strip (Str.lower s) = Str.lower s -> Str.strip s = s.
Proof.
  intros H. apply str_strip_fixed.
  rewrite <- (str_lower_inj_length (Str.strip s)), <- str_strip_lower, H.
  apply str_lower_inj_length.
Qed.

(** ** Ordered dictionaries *)

Lemma dict_set_keys {V} (k : string) (v : V) (d : odict V) (k' : string) :
  k' ∈ (dict_set k v d).*1 <-> k' = k \/ k' ∈ d.*1.
Proof.
  induction d as [|[k0 v0] d IH]; simpl.
  - rewrite list_elem_of_singleton, elem_of_nil. tauto.
  - destruct (decide (k = k0)) as [->|Hne]; simpl.
    + rewrite !elem_of_cons. tauto.
    + rewrite !elem_of_cons, IH. tauto.
Qed.

Lemma dict_set_nodup {V} (k : string) (v : V) (d : odict V) :
  NoDup d.*1 -> NoDup (dict_set k v d).*1.
Proof.
  induction d as [|[k0 v0] d IH]; simpl; intros Hnd.
  - apply NoDup_singleton.
  - apply NoDup_cons in Hnd as [Hnotin Hnd].
    destruct (decide (k = k0)) as [->|Hne]; simpl.
    + by apply NoDup_cons.
    + apply NoDup_cons. split; [|by apply IH].
      rewrite dict_set_keys. intros [->|Hin]; [done|by apply Hnotin].
Qed.

Lemma dict_get_of_elem {V} (k : string) (v : V) (d : odict V) :
  NoDup d.*1 -> (k, v) ∈ d -> dict_get k d = Some v.
Proof.
  induction d as [|[k0 v0] d IH]; simpl; intros Hnd Hin.
  - by apply elem_of_nil in Hin.
  - apply NoDup_cons in Hnd as [Hnotin Hnd].
    apply elem_of_cons in Hin as [Heq|Hin].
    + injection Heq as -> ->. by rewrite decide_True.
    + destruct (decide (k = k0)) as [->|Hne]; [|by apply IH].
      exfalso. apply Hnotin. apply list_elem_of_fmap. by exists (k0, v).
Qed.

Lemma dict_get_elem {V} (k : string) (v : V) (d : odict V) :
  dict_get k d = Some v -> (k, v) ∈ d.
Proof.
  induction d as [|[k0 v0] d IH]; simpl; [done|].
  destruct (decide (k = k0)) as [->|Hne].
  - intros [= ->]. apply elem_of_cons. by left.
  - intros H. apply elem_of_cons. right. by apply IH.
Qed.

Lemma flatten_category_nodup (acc : odict (list string)) (m : odict pyval) :
  NoDup acc.*1 -> NoDup (flatten_category acc m).*1.
Proof.
  unfold flatten_category. revert acc.
  induction m as [|[c v] m IH]; simpl; intros acc Hnd; [done|].
  apply IH. destruct v; try done. by apply dict_set_nodup.
Qed.

Lemma all_mappings_nodup (synonyms_data : odict pyval) :
  NoDup (all_mappings_of synonyms_data).*1.
Proof.
  unfold all_mappings_of.
  assert (forall acc : odict (list string), NoDup acc.*1 ->
    NoDup (fold_left
      (fun acc '(category, mappings) =>
         match mappings with
         | PDict m => flatten_category acc m
         | _ => acc
         end) synonyms_data acc).*1) as H.
  { induction synonyms_data as [|[cat v] G IH]; simpl; intros acc Hnd; [done|].
    apply IH. destruct v; try done. by apply flatten_category_nodup. }
  apply H. apply NoDup_nil_2.
Qed.

(** ** The term index *)

Lemma claim_lookup (t c t' : string) (idx : gmap string string) :
  claim t c idx !! t' =
  match idx !! t' with
  | Some x => Some x
  | None => if decide (t = t') then Some c else None
  end.
Proof.
  unfold claim. destruct (idx !! t) as [x|] eqn:E.
  - destruct (idx !! t') as [y|] eqn:E'; [done|].
    destruct (decide (t = t')) as [->|]; [congruence|done].
  - rewrite lookup_insert. destruct (decide (t = t')) as [->|]; [by rewrite E|].
    by destruct (idx !! t').
Qed.

Lemma claim_keeps (t c t' x : string) (idx : gmap string string) :
  idx !! t' = Some x -> claim t c idx !! t' = Some x.
Proof. intros H. by rewrite claim_lookup, H. Qed.

Lemma index_syns_keeps (c : string) (syns : list string) (idx : gmap string string)
    (t x : string) :
  idx !! t = Some x ->
  fold_left (fun idx s => claim (Str.lower s) c idx) syns idx !! t = Some x.
Proof.
  revert idx. induction syns as [|s syns IH]; simpl; intros idx H; [done|].
  apply IH. by apply claim_keeps.
Qed.

Lemma index_syns_claims (c : string) (syns : list string) (idx : gmap string string)
    (t : string) :
  idx !! t = None ->
  (exists s, s ∈ syns /\ t = Str.lower s) ->
  fold_left (fun idx s => claim (Str.lower s) c idx) syns idx !! t = Some c.
Proof.
  revert idx. induction syns as [|s syns IH]; simpl; intros idx Hnone (s' & Hin & ->).
  - by apply elem_of_nil in Hin.
  - destruct (decide (Str.lower s = Str.lower s')) as [E|Hne].
    + apply index_syns_keeps. by rewrite claim_lookup, Hnone, decide_True.
    + apply IH.
      * by rewrite claim_lookup, Hnone, decide_False.
      * exists s'. split; [|done].
        apply elem_of_cons in Hin as [->|Hin]; [done|exact Hin].
Qed.

Lemma index_syns_origin (c : string) (syns : list string) (idx : gmap string string)
    (t x : string) :
  fold_left (fun idx s => claim (Str.lower s) c idx) syns idx !! t = Some x ->
  idx !! t = Some x \/ (x = c /\ exists s, s ∈ syns /\ t = Str.lower s).
Proof.
  revert idx. induction syns as [|s syns IH]; simpl; intros idx H; [by left|].
  apply IH in H as [H|(-> & s' & Hin & ->)].
  - rewrite claim_lookup in H. destruct (idx !! t) as [y|] eqn:E; [by left|].
    destruct (decide (Str.lower s = t)) as [<-|]; [|done].
    injection H as <-. right. split; [done|]. exists s. split; [|done].
    apply elem_of_cons. by left.
  - right. split; [done|]. exists s'. split; [|done]. apply elem_of_cons. by right.
Qed.

Lemma index_group_keeps (idx : gmap string string) (c : string) (syns : list string)
    (t x : string) :
  idx !! t = Some x -> index_group idx c syns !! t = Some x.
Proof. intros H. apply index_syns_keeps. by apply claim_keeps. Qed.

Lemma index_group_claims (idx : gmap string string) (c : string) (syns : list string)
    (t : string) :
  idx !! t = None -> claims t c syns -> index_group idx c syns !! t = Some c.
Proof.
  intros Hnone [->|Hsyn]; unfold index_group.
  - apply index_syns_keeps. by rewrite claim_lookup, Hnone, decide_True.
  - destruct (decide (Str.lower c = t)) as [E|Hne].
    + apply index_syns_keeps. by rewrite claim_lookup, Hnone, decide_True.
    + apply index_syns_claims; [|done]. by rewrite claim_lookup, Hnone, decide_False.
Qed.

Lemma index_group_origin (idx : gmap string string) (c : string) (syns : list string)
    (t x : string) :
  index_group idx c syns !! t = Some x ->
  idx !! t = Some x \/ (x = c /\ claims t c syns).
Proof.
  unfold index_group. intros H.
  apply index_syns_origin in H as [H|(-> & Hsyn)].
  - rewrite claim_lookup in H. destruct (idx !! t) as [y|] eqn:E; [by left|].
    destruct (decide (Str.lower c = t)) as [<-|]; [|done].
    injection H as <-. right. split; [done|by left].
  - right. split; [done|by right].
Qed.

Lemma index_from_keeps (idx : gmap string string) (am : odict (list string))
    (t x : string) :
  idx !! t = Some x -> index_from idx am !! t = Some x.
Proof.
  unfold index_from. revert idx.
  induction am as [|[c syns] am IH]; simpl; intros idx H; [done|].
  apply IH. by apply index_group_keeps.
Qed.

Lemma index_from_origin (idx : gmap string string) (am : odict (list string))
    (t x : string) :
  index_from idx am !! t = Some x ->
  idx !! t = Some x \/ exists syns, (x, syns) ∈ am /\ claims t x syns.
Proof.
  unfold index_from. revert idx.
  induction am as [|[c syns] am IH]; simpl; intros idx H; [by left|].
  apply IH in H as [H|(syns' & Hin & Hcl)].
  - apply index_group_origin in H as [H|(-> & Hcl)]; [by left|].
    right. exists syns. split; [|done]. apply elem_of_cons. by left.
  - right. exists syns'. split; [|done]. apply elem_of_cons. by right.
Qed.

Lemma index_from_unclaimed (idx : gmap string string) (am : odict (list string))
    (t : string) :
  idx !! t = None ->
  (forall c syns, (c, syns) ∈ am -> ~ claims t c syns) ->
  index_from idx am !! t = None.
Proof.
  intros Hnone Hun. destruct (index_from idx am !! t) as [x|] eqn:E; [|done].
  apply index_from_origin in E as [E|(syns & Hin & Hcl)]; [congruence|].
  exfalso. by apply (Hun x syns).
Qed.

Lemma index_from_app (idx : gmap string string) (am1 am2 : odict (list string)) :
  index_from idx (am1 ++ am2)%list = index_from (index_from idx am1) am2.
Proof. unfold index_from. apply fold_left_app. Qed.

(** ** The expansion loop *)

Lemma expand_one_union (am : odict (list string)) (idx : gmap string string)
    (acc : gset string) (req : string) :
  expand_one am idx acc req = acc ∪ contribution am idx req.
Proof.
  unfold contribution, expand_one.
  destruct (idx !! req) as [c|]; [destruct (truthy c)|];
    by rewrite (left_id_L ∅ (∪)).
Qed.

Lemma expand_fold_elem (am : odict (list string)) (idx : gmap string string)
    (reqs : list string) (acc : gset string) (s : string) :
  s ∈ fold_left (expand_one am idx) reqs acc <->
  s ∈ acc \/ exists req, req ∈ reqs /\ s ∈ contribution am idx req.
Proof.
  revert acc. induction reqs as [|q reqs IH]; simpl; intros acc.
  - split; [by left|]. intros [H|(req & Hin & _)]; [done|]. by apply elem_of_nil in Hin.
  - rewrite IH, expand_one_union, elem_of_union. split.
    + intros [[H|H]|(req & Hin & H)].
      * by left.
      * right. exists q. split; [apply elem_of_cons; by left|done].
      * right. exists req. split; [apply elem_of_cons; by right|done].
    + intros [H|(req & Hin & H)]; [by left; left|].
      apply elem_of_cons in Hin as [->|Hin]; [by left; right|].
      right. by exists req.
Qed.

Lemma requested_lower_elem (requested : list string) (req : string) :
  req ∈ requested_lower_of requested <->
  exists r, r ∈ requested /\ truthy (Str.strip r) = true /\ req = Str.lower (Str.strip r).
Proof.
  unfold requested_lower_of. rewrite list_elem_of_In, in_map_iff. split.
  - intros (r & <- & Hin). apply filter_In in Hin as [Hin Ht].
    exists r. by rewrite list_elem_of_In.
  - intros (r & Hin & Ht & ->). exists r. split; [done|].
    apply filter_In. by rewrite <- list_elem_of_In.
Qed.

Lemma expand_elem (requested : list string) (synonyms_data : odict pyval) (s : string) :
  s ∈ _build_property_search_terms requested synonyms_data <->
  exists req,
    req ∈ requested_lower_of requested /\
    s ∈ contribution (all_mappings_of synonyms_data)
          (term_to_canonical_of (all_mappings_of synonyms_data)) req.
Proof.
  unfold _build_property_search_terms. rewrite expand_fold_elem.
  split; [intros [H|H]; [by apply not_elem_of_empty in H|done]|by right].
Qed.

(** A requested term without an index entry is in the result as it stands. *)
Lemma expand_contains_literal (requested : list string) (synonyms_data : odict pyval)
    (req : string) :
  req ∈ requested_lower_of requested ->
  term_to_canonical_of (all_mappings_of synonyms_data) !! req = None ->
  req ∈ _build_property_search_terms requested synonyms_data.
Proof.
  intros Hin Hnone. apply expand_elem. exists req. split; [done|].
  unfold contribution, expand_one. rewrite Hnone.
  apply elem_of_union. right. by apply elem_of_singleton.
Qed.

(** A requested term with a non-empty canonical brings in the whole group. *)
Lemma expand_contains_group (requested : list string) (synonyms_data : odict pyval)
    (req c : string) :
  req ∈ requested_lower_of requested ->
  term_to_canonical_of (all_mappings_of synonyms_data) !! req = Some c ->
  truthy c = true ->
  group_of (all_mappings_of synonyms_data) c
    ⊆ _build_property_search_terms requested synonyms_data.
Proof.
  intros Hin Hsome Ht s Hs. apply expand_elem. exists req. split; [done|].
  unfold contribution, expand_one. rewrite Hsome, Ht.
  apply elem_of_union. by right.
Qed.

Lemma group_of_elem (am : odict (list string)) (c s : string) (syns : list string) :
  NoDup am.*1 -> (c, syns) ∈ am ->
  s ∈ group_of am c <-> s = c \/ s ∈ syns.
Proof.
  intros Hnd Hin. unfold group_of.
  rewrite (dict_get_of_elem c syns am Hnd Hin). simpl.
  rewrite elem_of_union, elem_of_singleton, elem_of_list_to_set. tauto.
Qed.

(** The canonical an index built from scratch gives is a key of the
    mappings, and its group lays claim to the term. *)
Lemma term_to_canonical_origin (am : odict (list string)) (t c : string) :
  term_to_canonical_of am !! t = Some c ->
  exists syns, (c, syns) ∈ am /\ claims t c syns.
Proof.
  intros H. apply index_from_origin in H as [H|H]; [|done].
  by rewrite lookup_empty in H.
Qed.

Lemma requested_lower_shape (requested : list string) (req : string) :
  req ∈ requested_lower_of requested ->
  Str.strip req = req /\ Str.lower req = req /\ truthy req = true.
Proof.
  intros (r & _ & Ht & ->)%requested_lower_elem. split; [|split].
  - by rewrite str_strip_lower, str_strip_idem.
  - apply str_lower_idem.
  - unfold truthy in *. by rewrite str_is_empty_lower.
Qed.

(** ** Search-term expansion: the spelling of the result *)

(** C1, as stated, fails: not every string of the result is lowercase.  For
    the graph [{"_thermal": {"Tg": ["Glass Transition"]}}] and the request
    [["tg"]] the result holds ["Tg"], spelled as in the graph. *)
Lemma search_terms_not_all_lowercase :
  ~ (forall (requested : list string) (synonyms_data : odict pyval) (s : string),
       s ∈ _build_property_search_terms requested synonyms_data -> Str.is_lower s).
Proof.
  intros H. specialize (H ["tg"] thermal_graph "Tg").
  assert ("Tg" ∈ _build_property_search_terms ["tg"] thermal_graph) as Hin
    by decide_by_evaluation.
  apply H in Hin. vm_compute in Hin. discriminate Hin.
Qed.

(** C1, amended.  Every string of the result is either the trimmed,
    lowercased form of a requested term, and then lowercase, or a canonical
    term or synonym of the flattened graph exactly as the graph spells it.
    When a requested term resolves to a non-empty canonical, that canonical
    and all the synonyms listed for it are in the result as spelled. *)
Theorem search_terms_spelling (requested : list string) (synonyms_data : odict pyval) :
  (forall s, s ∈ _build_property_search_terms requested synonyms_data ->
     (Str.is_lower s /\ s ∈ requested_lower_of requested)
     \/ exists c syns, (c, syns) ∈ all_mappings_of synonyms_data /\ (s = c \/ s ∈ syns))
  /\
  (forall req c,
     req ∈ requested_lower_of requested ->
     term_to_canonical_of (all_mappings_of synonyms_data) !! req = Some c ->
     truthy c = true ->
     c ∈ _build_property_search_terms requested synonyms_data
     /\ forall s, s ∈ default [] (dict_get c (all_mappings_of synonyms_data)) ->
                  s ∈ _build_property_search_terms requested synonyms_data).
Proof.
  split.
  - intros s (req & Hreq & Hs)%expand_elem.
    pose proof (requested_lower_shape _ _ Hreq) as (_ & Hlow & _).
    unfold contribution, expand_one in Hs.
    destruct (term_to_canonical_of _ !! req) as [c|] eqn:E.
    + destruct (truthy c).
      * right. apply term_to_canonical_origin in E as (syns & Hin & _).
        exists c, syns. split; [done|].
        rewrite (left_id_L ∅ (∪)) in Hs.
        by apply (group_of_elem _ c s syns (all_mappings_nodup synonyms_data) Hin).
      * left. rewrite (left_id_L ∅ (∪)) in Hs. apply elem_of_singleton in Hs as ->.
        by split.
    + left. rewrite (left_id_L ∅ (∪)) in Hs. apply elem_of_singleton in Hs as ->.
      by split.
  - intros req c Hreq Hc Ht.
    pose proof (expand_contains_group _ _ _ _ Hreq Hc Ht) as Hsub.
    split.
    + apply Hsub. unfold group_of. apply elem_of_union. left. by apply elem_of_singleton.
    + intros s Hs. apply Hsub. unfold group_of. apply elem_of_union. right.
      by apply elem_of_list_to_set.
Qed.

Lemma search_terms_spelling_witness :
  "Tg" ∈ _build_property_search_terms ["tg"] thermal_graph
  /\ "Glass Transition" ∈ _build_property_search_terms ["tg"] thermal_graph
  /\ ((Str.is_lower "Tg" /\ "Tg" ∈ requested_lower_of ["tg"])
      \/ exists c syns, (c, syns) ∈ all_mappings_of thermal_graph
                        /\ ("Tg" = c \/ "Tg" ∈ syns)).
Proof.
  destruct (search_terms_spelling ["tg"] thermal_graph) as [Hspell Hgroup].
  destruct (Hgroup "tg" "Tg") as [Hc Hsyns].
  - decide_by_evaluation.
  - vm_compute. reflexivity.
  - reflexivity.
  - split; [exact Hc|]. split.
    + apply Hsyns. decide_by_evaluation.
    + apply Hspell. exact Hc.
Defined.

(** ** Search-term expansion: the empty canonical *)

(** C2, at the input on which the code departs from it.  The index maps
    ["tg"] to the empty canonical, whose group holds the empty string,
    ["tg"] and ["glass transition"], yet the test [if canonical:] takes the
    empty string for a missing entry and the result is just [{"tg"}]. *)
Theorem empty_canonical_group_dropped :
  term_to_canonical_of (all_mappings_of nameless_graph) !! "tg" = Some EmptyString
  /\ "glass transition" ∈ group_of (all_mappings_of nameless_graph) EmptyString
  /\ _build_property_search_terms ["tg"] nameless_graph = {[ "tg" ]}.
Proof.
  split; [vm_compute; reflexivity|]. split.
  - decide_by_evaluation.
  - vm_compute. reflexivity.
Qed.

(** ** Search-term expansion: expanding twice *)

(** C3.  Expanding the elements of an expanded set again gives a superset
    of that set. *)
Theorem re_expansion_does_not_shrink (requested : list string)
    (synonyms_data : odict pyval) :
  _build_property_search_terms requested synonyms_data
  ⊆ _build_property_search_terms
      (elements (_build_property_search_terms requested synonyms_data))
      synonyms_data.
Proof.
  intros s Hs. pose proof Hs as (req & Hreq & Hc)%expand_elem.
  pose proof (requested_lower_shape _ _ Hreq) as (Hstrip & Hlow & Htruthy).
  (* Some element [x] of the first result normalises to [req]. *)
  assert (exists x, x ∈ _build_property_search_terms requested synonyms_data
                    /\ Str.lower x = req) as (x & Hx & Hxl).
  { destruct (term_to_canonical_of (all_mappings_of synonyms_data) !! req)
      as [c|] eqn:E; [destruct (truthy c) eqn:Tc|].
    - pose proof (expand_contains_group _ _ _ _ Hreq E Tc) as Hsub.
      apply term_to_canonical_origin in E as (syns & Hin & [->|(s' & Hs' & ->)]).
      + exists c. split; [|done]. apply Hsub.
        apply (group_of_elem _ c c syns (all_mappings_nodup synonyms_data) Hin).
        by left.
      + exists s'. split; [|done]. apply Hsub.
        apply (group_of_elem _ c s' syns (all_mappings_nodup synonyms_data) Hin).
        by right.
    - exists req. split; [|done]. apply expand_elem. exists req. split; [done|].
      unfold contribution, expand_one. rewrite E, Tc.
      apply elem_of_union. right. by apply elem_of_singleton.
    - exists req. split; [|done]. by apply expand_contains_literal. }
  assert (Str.strip x = x) as Hxs.
  { apply str_strip_of_lower_trimmed. by rewrite Hxl. }
  apply expand_elem. exists req. split; [|done].
  apply requested_lower_elem. exists x. split; [by apply elem_of_elements|].
  rewrite Hxs. split; [|done].
  unfold truthy in *. by rewrite <- str_is_empty_lower, Hxl.
Qed.

(** ** The term index: first claim wins *)

(** C7.  The index is a map, so a lowercase term has one canonical; and it
    is the canonical of the first group, in processing order, that lays
    claim to the term, whatever the later groups list. *)
Theorem first_claim_keeps_ownership (before after : odict (list string))
    (canonical : string) (syns : list string) (t : string) :
  (forall c' syns', (c', syns') ∈ before -> ~ claims t c' syns') ->
  claims t canonical syns ->
  term_to_canonical_of (before ++ (canonical, syns) :: after)%list !! t
  = Some canonical.
Proof.
  intros Hfree Hclaim. unfold term_to_canonical_of.
  rewrite index_from_app.
  change ((canonical, syns) :: after) with ([(canonical, syns)] ++ after)%list.
  rewrite index_from_app. apply index_from_keeps.
  unfold index_from at 1. simpl. apply index_group_claims; [|done].
  apply index_from_unclaimed; [apply lookup_empty|done].
Qed.

Lemma first_claim_keeps_ownership_witness :
  term_to_canonical_of
    [("Mw", ["molecular weight"]);
     ("glass transition", ["Tg"; "T_g"]);
     ("TGA", ["tg"; "thermogravimetric"])]
    !! "tg" = Some "glass transition".
Proof.
  apply (first_claim_keeps_ownership
           [("Mw", ["molecular weight"])] [("TGA", ["tg"; "thermogravimetric"])]
           "glass transition" ["Tg"; "T_g"] "tg").
  - intros c' syns' Hin.
    apply elem_of_cons in Hin as [[= -> ->] | Hin];
      [|exfalso; exact (proj1 (elem_of_nil _) Hin)].
    intros [Hc | (s & Hs & Hl)]; [vm_compute in Hc; discriminate Hc|].
    apply elem_of_cons in Hs as [-> | Hs];
      [vm_compute in Hl; discriminate Hl|exact (proj1 (elem_of_nil _) Hs)].
  - right. exists "Tg". split; [apply elem_of_cons; by left|reflexivity].
Defined.

(** ** The matcher: consumed characters *)

Lemma further_trans (n m : nat) (a b c : Re.mstate) :
  further n a b -> further m b c -> further (n + m) a c.
Proof. unfold further. lia. Qed.

Lemma further_weaken (n m : nat) (a b : Re.mstate) :
  m <= n -> further n a b -> further m a b.
Proof. unfold further. lia. Qed.

Lemma star_reaches (p : ascii -> bool) (k : Re.mstate -> option Re.mstate)
    (s : string) (n : nat) (pv : option ascii) (cs : list (nat * (nat * nat)))
    (x : Re.mstate) :
  Re.star p k n pv cs s = Some x ->
  exists st1, k st1 = Some x /\ further 0 (Re.MState n pv s cs) st1.
Proof.
  revert n pv. induction s as [|c s IH]; simpl; intros n pv H.
  - exists (Re.MState n pv EmptyString cs). split; [done|]. unfold further. simpl. lia.
  - destruct (p c).
    + destruct (Re.star p k (S n) (Some c) cs s) as [y|] eqn:E; simpl in H.
      * injection H as ->. apply IH in E as (st1 & Hk & Hf).
        exists st1. split; [done|]. unfold further in *. simpl in *. lia.
      * exists (Re.MState n pv (String c s) cs). split; [done|].
        unfold further. simpl. lia.
    + exists (Re.MState n pv (String c s) cs). split; [done|].
      unfold further. simpl. lia.
Qed.

Lemma exec_reaches (r : Re.regex) (st : Re.mstate)
    (k : Re.mstate -> option Re.mstate) (x : Re.mstate) :
  Re.exec r st k = Some x ->
  exists st1, k st1 = Some x /\ further (if eats r then 1 else 0) st st1.
Proof.
  revert st k. induction r as [|p|r1 IH1 r2 IH2|r1 IH1 r2 IH2|p| |p|p|i r1 IH1];
    simpl; intros st k H.
  - exists st. split; [done|]. unfold further. lia.
  - destruct st as [n pv s cs]. simpl in H. destruct s as [|c s]; [done|].
    destruct (p c); [|done]. eexists. split; [exact H|].
    unfold further, Re.advance. simpl. lia.
  - apply IH1 in H as (st1 & H & Hf1). apply IH2 in H as (st2 & H & Hf2).
    exists st2. split; [done|].
    eapply further_weaken; [|exact (further_trans _ _ _ _ _ Hf1 Hf2)].
    destruct (eats r1), (eats r2); simpl; lia.
  - destruct (Re.exec r1 st k) as [y|] eqn:E; simpl in H.
    + injection H as ->. apply IH1 in E as (st1 & Hk & Hf).
      exists st1. split; [done|]. eapply further_weaken; [|exact Hf].
      destruct (eats r1), (eats r2); simpl; lia.
    + apply IH2 in H as (st1 & Hk & Hf).
      exists st1. split; [done|]. eapply further_weaken; [|exact Hf].
      destruct (eats r1), (eats r2); simpl; lia.
  - destruct st as [n pv s cs]. simpl in H. by apply star_reaches in H.
  - destruct (Re.at_boundary _ _); [|done].
    exists st. split; [done|]. unfold further. lia.
  - destruct (Re.prev st) as [c|]; [|done]. destruct (p c); [|done].
    exists st. split; [done|]. unfold further. lia.
  - destruct (Re.rest st) as [|c s] eqn:E; [done|]. destruct (p c); [|done].
    exists st. split; [done|]. unfold further. lia.
  - apply IH1 in H as (st1 & H & Hf).
    eexists. split; [exact H|]. unfold further, Re.set_cap in *. simpl. lia.
Qed.

Lemma match_here_eats (r : Re.regex) (pv : option ascii) (s : string) (m : Re.rmatch) :
  eats r = true -> Re.match_here r pv s = Some m ->
  exists n, Re.m_len m = S n /\ s <> EmptyString.
Proof.
  unfold Re.match_here, Re.m_len. intros He H.
  destruct (Re.exec r (Re.MState 0 pv s []) Some) as [x|] eqn:E; [|done].
  injection H as <-. simpl.
  apply exec_reaches in E as (st1 & [= ->] & Hge & Hlen). rewrite He in Hge.
  simpl in *. destruct (Re.pos x) as [|n] eqn:Ep; [lia|].
  exists n. split; [done|]. intros ->. simpl in Hlen. lia.
Qed.

(** For such a pattern, [finditer] finds something exactly when [search]
    does. *)
Lemma finditer_nil_search (r : Re.regex) (s : string) :
  eats r = true -> is_nil (Re.finditer r s) = negb (Re.found r s).
Proof.
  intros He. unfold Re.finditer, Re.found, Re.search. generalize (@None ascii).
  induction s as [|c s IH]; intros pv; simpl.
  - destruct (Re.match_here r pv EmptyString) as [m|] eqn:E; [|done].
    by apply match_here_eats in E as (n & _ & Hne).
  - destruct (Re.match_here r pv (String c s)) as [m|] eqn:E.
    + apply match_here_eats in E as (n & -> & _); done.
    + apply IH.
Qed.

Lemma is_nil_app {A} (l1 l2 : list A) : is_nil (l1 ++ l2) = is_nil l1 && is_nil l2.
Proof. by destruct l1. Qed.

Lemma is_nil_map {A B} (f : A -> B) (l : list A) : is_nil (List.map f l) = is_nil l.
Proof. by destruct l. Qed.

Lemma is_nil_filter {A} (f : A -> bool) (l : list A) :
  is_nil (List.filter f l) = negb (existsb f l).
Proof.
  induction l as [|a l IH]; simpl; [done|]. by destruct (f a).
Qed.

(** ** Triple detection: the three signals *)

Lemma find_whole_word_nil (sentence : string) (terms : gset string) :
  is_nil (_find_whole_word sentence terms) = negb (word_hit sentence terms).
Proof. unfold _find_whole_word, word_hit. apply is_nil_filter. Qed.

Lemma regex_poly_patterns_nil (sentence : string) :
  is_nil (_regex_poly_patterns sentence)
  = negb (Re.found POLY_BRACKET sentence || Re.found POLY_CLASS sentence).
Proof.
  unfold _regex_poly_patterns.
  rewrite is_nil_app, !is_nil_map, !finditer_nil_search by reflexivity.
  by rewrite negb_orb.
Qed.

(** C4.  The detector is the conjunction of the three signals: it is false
    as soon as one of them is absent, whatever the other two, and true only
    when the sentence has all three. *)
Theorem has_valid_triple_is_conjunction (sentence : string)
    (property_terms : gset string) :
  _has_valid_triple sentence property_terms
  = polymer_signal sentence
    && property_signal sentence property_terms
    && value_signal sentence.
Proof.
  unfold _has_valid_triple, polymer_signal, property_signal, value_signal, has_num_of.
  rewrite is_nil_app, !find_whole_word_nil, regex_poly_patterns_nil.
  destruct (word_hit sentence POLYMER_TERMS), (Re.found POLY_BRACKET sentence),
    (Re.found POLY_CLASS sentence), (word_hit sentence property_terms),
    (Re.found NUM_UNIT sentence), (Re.found NUM_ONLY sentence); reflexivity.
Qed.

(** ** Triple detection: the case of the terms *)

Lemma whole_word_lower (term : string) : whole_word (Str.lower term) = whole_word term.
Proof. unfold whole_word. by rewrite str_lower_idem. Qed.

Lemma word_hit_true (sentence : string) (terms : gset string) :
  word_hit sentence terms = true <->
  exists term, term ∈ terms
               /\ Re.found (whole_word term) (Str.lower sentence) = true.
Proof.
  unfold word_hit. rewrite existsb_exists. split.
  - intros (t & Hin & Hf). exists t. split; [|done].
    by apply elem_of_elements, list_elem_of_In.
  - intros (t & Hin & Hf). exists t. split; [|done].
    by apply list_elem_of_In, elem_of_elements.
Qed.

Lemma word_hit_lower_terms (sentence : string) (terms : gset string) :
  word_hit sentence (set_map (D := gset string) Str.lower terms)
  = word_hit sentence terms.
Proof.
  apply eq_true_iff_eq. rewrite !word_hit_true. split.
  - intros (t' & (t & -> & Hin)%elem_of_map & Hf). exists t. split; [done|].
    by rewrite <- whole_word_lower.
  - intros (t & Hin & Hf). exists (Str.lower t). split.
    + apply elem_of_map. by exists t.
    + by rewrite whole_word_lower.
Qed.

(** C9.  The detector gives the same answer for a term set and for the set
    of its lowercase forms. *)
Theorem has_valid_triple_ignores_term_case (sentence : string)
    (property_terms : gset string) :
  _has_valid_triple sentence property_terms
  = _has_valid_triple sentence (set_map (D := gset string) Str.lower property_terms).
Proof.
  unfold _has_valid_triple.
  by rewrite !(find_whole_word_nil sentence (set_map _ _)), word_hit_lower_terms,
    <- !find_whole_word_nil.
Qed.

(** ** Triple detection: the two sentences of the specification *)

Example pmma_sentence_qualifies :
  _has_valid_triple pmma_sentence {[ "tg"; "glass transition" ]} = true
  /\ _regex_poly_patterns pmma_sentence = ["poly(methyl methacrylate)"]
  /\ Re.found NUM_UNIT pmma_sentence = true.
Proof. repeat split; vm_compute; reflexivity. Qed.

Example methods_sentence_fails :
  _has_valid_triple methods_text {[ "tg"; "glass transition" ]} = false.
Proof. vm_compute. reflexivity. Qed.

(** ** The value patterns: a number written against its unit *)

(** C10.  In a sentence that holds ["105kDa"] and no other digit, [NUM_UNIT]
    matches and [NUM_ONLY] does not, and the value signal of the detector
    holds all the same. *)
Theorem unit_pattern_not_subsumed :
  exists sentence,
    (exists before after, sentence = before +:+ "105kDa" +:+ after)
    /\ Re.found NUM_UNIT sentence = true
    /\ Re.found NUM_ONLY sentence = false
    /\ has_num_of sentence = true
    /\ _has_valid_triple sentence {[ "mw" ]} = true.
Proof.
  exists mw_sentence. split.
  - exists "The polymer had a Mw of ", ".". reflexivity.
  - repeat split; vm_compute; reflexivity.
Qed.

(** ** Sentence splitting *)

Lemma chars_app (a b : string) : Str.chars (a +:+ b) = (Str.chars a ++ Str.chars b)%list.
Proof. induction a as [|c a IH]; simpl; [done|]. by rewrite <- IH. Qed.

Lemma char_stop_spec (c : ascii) :
  Char.is_stop c = true <-> c = "."%char \/ c = "!"%char \/ c = "?"%char.
Proof.
  split.
  - destruct c as [[] [] [] [] [] [] [] []]; vm_compute; intros H;
      try discriminate H; auto.
  - intros [-> | [-> | ->]]; reflexivity.
Qed.

Lemma stop_free_cons (c : ascii) (s : string) :
  stop_free (String c s) <-> Char.is_stop c = false /\ stop_free s.
Proof.
  unfold stop_free. simpl. split.
  - intros H. split; [apply H; apply elem_of_cons; by left|].
    intros c' Hin. apply H. apply elem_of_cons. by right.
  - intros [Hc Hs] c' [->|Hin]%elem_of_cons; [done|by apply Hs].
Qed.

Lemma stop_free_app (a b : string) : stop_free a -> stop_free b -> stop_free (a +:+ b).
Proof.
  unfold stop_free. rewrite chars_app. intros Ha Hb c [H|H]%elem_of_app; auto.
Qed.

(** Replacing matches by a stop-free string keeps a stop-free text so. *)
Lemma sub_from_stop_free (r : Re.regex) (repl : string) (skip : nat)
    (pv : option ascii) (s : string) :
  stop_free repl -> stop_free s -> stop_free (Re.sub_from r repl skip pv s).
Proof.
  intros Hrepl. revert skip pv.
  induction s as [|c s IH]; simpl; intros skip pv Hs; [done|].
  apply stop_free_cons in Hs as [Hc Hs].
  destruct skip as [|n]; [|by apply IH].
  destruct (Re.match_here r pv (String c s)) as [m|].
  - destruct (Re.m_len m) as [|n].
    + apply stop_free_cons. split; [done|by apply IH].
    + apply stop_free_app; [done|by apply IH].
  - apply stop_free_cons. split; [done|by apply IH].
Qed.

Lemma sentence_break_needs_stop (pv : option ascii) (s : string) :
  stop_before pv = false -> Re.match_here SENTENCE_BREAK pv s = None.
Proof.
  unfold Re.match_here, SENTENCE_BREAK. simpl.
  destruct pv as [c|]; simpl; [|done]. by intros ->.
Qed.

(** Without a stop character there is nowhere to split. *)
Lemma split_from_stop_free (cur : list ascii) (pv : option ascii) (s : string) :
  stop_free s -> stop_before pv = false ->
  length (Re.split_from SENTENCE_BREAK 0 cur pv s) = 1.
Proof.
  revert cur pv. induction s as [|c s IH]; intros cur pv Hs Hpv; [done|].
  apply stop_free_cons in Hs as [Hc Hs].
  cbn [Re.split_from]. rewrite sentence_break_needs_stop by done.
  by apply IH.
Qed.

Lemma filter_length_le {A} (f : A -> bool) (l : list A) :
  length (List.filter f l) <= length l.
Proof. induction l as [|a l IH]; simpl; [lia|]. destruct (f a); simpl; lia. Qed.

(** C5.  The empty text has no sentences; a text without [.], [!] or [?]
    has at most one; and every sentence returned is longer than 15
    characters after trimming. *)
Theorem split_into_sentences_shape (text : string) :
  _split_into_sentences EmptyString = []
  /\ (stop_free text -> length (_split_into_sentences text) <= 1)
  /\ (forall p, p ∈ _split_into_sentences text -> 15 < String.length (Str.strip p)).
Proof.
  split; [reflexivity|]. split.
  - intros Hfree. unfold _split_into_sentences.
    destruct (Str.is_empty text); [simpl; lia|].
    rewrite length_map.
    etrans; [apply filter_length_le|].
    unfold Re.split. rewrite split_from_stop_free; [done| |done].
    apply sub_from_stop_free; [|done].
    intros c [->|Hin]%elem_of_cons; [reflexivity|by apply elem_of_nil in Hin].
  - intros p. unfold _split_into_sentences.
    destruct (Str.is_empty text); [by intros ?%elem_of_nil|].
    rewrite list_elem_of_In, in_map_iff. intros (q & <- & Hq).
    apply filter_In in Hq as [_ Hlen]. rewrite str_strip_idem.
    by apply Nat.ltb_lt in Hlen.
Qed.

Lemma split_into_sentences_shape_witness :
  length (_split_into_sentences plain_text) <= 1
  /\ 15 < String.length (Str.strip plain_text).
Proof.
  destruct (split_into_sentences_shape plain_text) as (_ & Hone & Hlong).
  split.
  - apply Hone. intros c Hin. vm_compute in Hin.
    repeat (apply elem_of_cons in Hin as [-> | Hin]; [reflexivity|]).
    by apply elem_of_nil in Hin.
  - apply Hlong. vm_compute. apply elem_of_cons. by left.
Defined.

(** ** One document *)

Lemma scan_sentences_found (before after : list string) (sent : string)
    (property_terms : gset string) :
  _has_valid_triple sent property_terms = true ->
  scan_sentences (before ++ sent :: after) property_terms = (true, REASON_FOUND).
Proof.
  intros Hq. induction before as [|s before IH]; simpl.
  - by rewrite Hq.
  - by destruct (_has_valid_triple s property_terms).
Qed.

Lemma scan_sentences_true (sents : list string) (property_terms : gset string) :
  (scan_sentences sents property_terms).1 = true ->
  exists sent, sent ∈ sents /\ _has_valid_triple sent property_terms = true.
Proof.
  induction sents as [|s sents IH]; simpl; [done|].
  destruct (_has_valid_triple s property_terms) eqn:E.
  - intros _. exists s. split; [apply elem_of_cons; by left|done].
  - intros (sent & Hin & Hq)%IH. exists sent. split; [apply elem_of_cons; by right|done].
Qed.

Lemma scan_sentences_none (sents : list string) (property_terms : gset string) :
  (forall sent, sent ∈ sents -> _has_valid_triple sent property_terms = false) ->
  scan_sentences sents property_terms = (false, REASON_NONE).
Proof.
  induction sents as [|s sents IH]; simpl; intros H; [done|].
  rewrite (H s) by (apply elem_of_cons; by left).
  apply IH. intros sent Hin. apply H. apply elem_of_cons. by right.
Qed.

(** C6.  A document passes exactly when one of its sentences holds a
    triple: a qualifying sentence decides, whatever follows it; a passing
    result comes from a qualifying sentence; and when no sentence
    qualifies the result is false with the fixed reason. *)
Theorem paper_passes_iff_some_sentence (full_text : string)
    (property_terms : gset string) :
  (forall before sent after,
     _split_into_sentences full_text = (before ++ sent :: after)%list ->
     _has_valid_triple sent property_terms = true ->
     is_paper_with_property_triples full_text property_terms
     = (true, "found (polymer, property, value) triple"))
  /\ ((is_paper_with_property_triples full_text property_terms).1 = true ->
      exists sent, sent ∈ _split_into_sentences full_text
                   /\ _has_valid_triple sent property_terms = true)
  /\ ((forall sent, sent ∈ _split_into_sentences full_text ->
                    _has_valid_triple sent property_terms = false) ->
      is_paper_with_property_triples full_text property_terms
      = (false, "no matching (polymer, property, value) triples")).
Proof.
  unfold is_paper_with_property_triples. split; [|split].
  - intros before sent after -> Hq. by apply scan_sentences_found.
  - apply scan_sentences_true.
  - apply scan_sentences_none.
Qed.

Lemma paper_passes_iff_some_sentence_witness :
  is_paper_with_property_triples pmma_text {[ "tg" ]}
  = (true, "found (polymer, property, value) triple")
  /\ (exists sent, sent ∈ _split_into_sentences pmma_text
                   /\ _has_valid_triple sent {[ "tg" ]} = true)
  /\ is_paper_with_property_triples methods_text {[ "tg" ]}
     = (false, "no matching (polymer, property, value) triples").
Proof.
  destruct (paper_passes_iff_some_sentence pmma_text {[ "tg" ]}) as (Hfirst & Hback & _).
  destruct (paper_passes_iff_some_sentence methods_text {[ "tg" ]}) as (_ & _ & Hnone).
  split; [|split].
  - apply (Hfirst []
             "The polymer poly(methyl methacrylate) showed a Tg of 105 C in this study."
             [methods_text]); vm_compute; reflexivity.
  - apply Hback. vm_compute. reflexivity.
  - apply Hnone. intros sent Hin. vm_compute in Hin.
    apply elem_of_cons in Hin as [-> | Hin]; [vm_compute; reflexivity|].
    exfalso. exact (proj1 (elem_of_nil _) Hin).
Defined.

(** ** The corpus loop *)

Section CorpusProperties.

Variable parse : string -> outcome parsed.

Lemma visit_fold (search_terms : gset string) (files : list string) (t : tally) :
  fold_left (visit parse search_terms) files t
  = Tally (passing t ++ List.filter (passes parse search_terms) files)
          (failing t ++ omap (failure_of parse search_terms) files).
Proof.
  revert t. induction files as [|path files IH]; intros t; simpl.
  - rewrite !app_nil_r. by destruct t.
  - rewrite IH. unfold visit, passes, failure_of.
    destruct (parse path) as [result|e]; simpl.
    + destruct (is_paper_with_property_triples _ _) as [[] reason]; simpl;
        by rewrite <- ?app_assoc.
    + by rewrite <- app_assoc.
Qed.

Lemma filter_papers_lists (files property_terms : list string)
    (synonyms_data : odict pyval) :
  filter_papers parse files property_terms synonyms_data
  = Tally (List.filter (passes parse (search_terms_of property_terms synonyms_data)) files)
          (omap (failure_of parse (search_terms_of property_terms synonyms_data)) files).
Proof.
  unfold filter_papers. destruct files as [|path files]; [done|].
  cbn [is_nil]. by rewrite visit_fold.
Qed.

(** C8.  A document whose parse raises goes to the failing list with the
    message of the error in its reason, and nowhere else; the documents
    before and after it are judged as they are on their own. *)
Theorem parse_error_is_isolated (before after : list string) (path e : string)
    (property_terms : list string) (synonyms_data : odict pyval) :
  parse path = Raised e ->
  failing (filter_papers parse (before ++ path :: after) property_terms synonyms_data)
  = (failing (filter_papers parse before property_terms synonyms_data)
     ++ (path, "parse error: " +:+ e)
     :: failing (filter_papers parse after property_terms synonyms_data))%list
  /\
  passing (filter_papers parse (before ++ path :: after) property_terms synonyms_data)
  = (passing (filter_papers parse before property_terms synonyms_data)
     ++ passing (filter_papers parse after property_terms synonyms_data))%list.
Proof.
  intros Hraise. rewrite !filter_papers_lists. simpl. split.
  - rewrite omap_app. simpl. unfold failure_of at 2. by rewrite Hraise.
  - rewrite List.filter_app. simpl. unfold passes at 2. by rewrite Hraise.
Qed.

End CorpusProperties.

Lemma parse_error_is_isolated_witness :
  failing (filter_papers sample_parse ["a.html"; "b.html"; "c.html"] ["Tg"] [])
  = [("b.html", "parse error: not an article");
     ("c.html", "no matching (polymer, property, value) triples")]
  /\ passing (filter_papers sample_parse ["a.html"; "b.html"; "c.html"] ["Tg"] [])
     = ["a.html"].
Proof.
  destruct (parse_error_is_isolated sample_parse ["a.html"] ["c.html"] "b.html"
              "not an article" ["Tg"] []) as [Hfail Hpass]; [reflexivity|].
  split.
  - etrans; [exact Hfail|]. vm_compute. reflexivity.
  - etrans; [exact Hpass|]. vm_compute. reflexivity.
Defined.

(** * Further properties of the module *)

(** ** Search-term expansion: how requests combine *)

Lemma requested_lower_app (r1 r2 : list string) :
  requested_lower_of (r1 ++ r2)%list
  = (requested_lower_of r1 ++ requested_lower_of r2)%list.
Proof. unfold requested_lower_of. by rewrite List.filter_app, List.map_app. Qed.

(** X1.  Expanding two request lists at once gives the union of their
    expansions, so neither the order of the requested terms nor their
    repetition matters. *)
Theorem expand_app (r1 r2 : list string) (synonyms_data : odict pyval) :
  _build_property_search_terms (r1 ++ r2)%list synonyms_data
  = _build_property_search_terms r1 synonyms_data
    ∪ _build_property_search_terms r2 synonyms_data.
Proof.
  apply set_eq. intros s. rewrite elem_of_union, !expand_elem. split.
  - intros (req & Hin & Hs). rewrite requested_lower_app in Hin.
    apply elem_of_app in Hin as [Hin|Hin]; [left|right]; by exists req.
  - intros [(req & Hin & Hs)|(req & Hin & Hs)]; exists req;
      (split; [|done]); rewrite requested_lower_app; apply elem_of_app; auto.
Qed.

Lemma requested_lower_normalised (requested : list string) :
  requested_lower_of (List.map (fun r => Str.lower (Str.strip r)) requested)
  = requested_lower_of requested.
Proof.
  unfold requested_lower_of.
  induction requested as [|r requested IH]; simpl; [done|].
  assert (truthy (Str.strip (Str.lower (Str.strip r))) = truthy (Str.strip r)) as ->.
  { rewrite str_strip_lower, str_strip_idem. unfold truthy.
    by rewrite str_is_empty_lower. }
  destruct (truthy (Str.strip r)); simpl; [|exact IH].
  by rewrite IH, str_strip_lower, str_strip_idem, str_lower_idem.
Qed.

(** X2.  The expansion sees a requested term only through its trimmed,
    lowercased form: requests that differ in case or in surrounding
    whitespace expand alike. *)
Theorem expand_normalised_request (requested : list string)
    (synonyms_data : odict pyval) :
  _build_property_search_terms
    (List.map (fun r => Str.lower (Str.strip r)) requested) synonyms_data
  = _build_property_search_terms requested synonyms_data.
Proof. unfold _build_property_search_terms. by rewrite requested_lower_normalised. Qed.

Lemma requested_lower_nil (requested : list string) :
  requested_lower_of requested = [] <->
  forall r, r ∈ requested -> Str.strip r = EmptyString.
Proof.
  unfold requested_lower_of. induction requested as [|r requested IH]; simpl.
  - split; [|done]. intros _ r Hin. by apply elem_of_nil in Hin.
  - unfold truthy at 1. destruct (Str.is_empty (Str.strip r)) eqn:E; simpl.
    + rewrite IH. apply str_is_empty_true in E. split.
      * intros H r' [->|Hin]%elem_of_cons; auto.
      * intros H r' Hin. apply H. apply elem_of_cons. by right.
    + split; [done|]. intros H. specialize (H r).
      rewrite H in E by (apply elem_of_cons; by left). done.
Qed.

Lemma contribution_inhabited (am : odict (list string)) (idx : gmap string string)
    (req : string) :
  exists s, s ∈ contribution am idx req.
Proof.
  unfold contribution, expand_one.
  destruct (idx !! req) as [c|]; [destruct (truthy c)|].
  - exists c. apply elem_of_union. right. unfold group_of.
    apply elem_of_union. left. by apply elem_of_singleton.
  - exists req. apply elem_of_union. right. by apply elem_of_singleton.
  - exists req. apply elem_of_union. right. by apply elem_of_singleton.
Qed.

Lemma expand_empty_blank (requested : list string) (synonyms_data : odict pyval) :
  _build_property_search_terms requested synonyms_data = ∅ <->
  forall r, r ∈ requested -> Str.strip r = EmptyString.
Proof.
  rewrite <- requested_lower_nil. split.
  - intros Hempty.
    destruct (requested_lower_of requested) as [|req reqs] eqn:E; [done|].
    destruct (contribution_inhabited (all_mappings_of synonyms_data)
      (term_to_canonical_of (all_mappings_of synonyms_data)) req) as [s Hs].
    assert (s ∈ _build_property_search_terms requested synonyms_data) as Hin.
    { apply expand_elem. exists req. split; [|done].
      rewrite E. apply elem_of_cons. by left. }
    rewrite Hempty in Hin. by apply not_elem_of_empty in Hin.
  - intros E. unfold _build_property_search_terms. by rewrite E.
Qed.

(** X3.  The expansion is empty exactly when every requested term is blank. *)
Theorem expand_empty_iff (requested : list string) (synonyms_data : odict pyval) :
  _build_property_search_terms requested synonyms_data = ∅ <->
  forall r, r ∈ requested -> Str.strip r = EmptyString.
Proof. exact (expand_empty_blank requested synonyms_data). Qed.

Lemma search_terms_of_expand (property_terms : list string)
    (synonyms_data : odict pyval) :
  search_terms_of property_terms synonyms_data
  = _build_property_search_terms property_terms synonyms_data.
Proof.
  unfold search_terms_of. destruct (decide _) as [Hempty|]; [|done].
  rewrite Hempty.
  pose proof (proj1 (expand_empty_blank _ _) Hempty) as Hblank.
  apply (proj2 (requested_lower_nil _)) in Hblank.
  unfold literal_terms, requested_lower_of in *.
  apply map_eq_nil in Hblank. by rewrite Hblank.
Qed.

(** X4.  The fall-back of [filter_papers] for an empty expansion never changes
    the search terms: when the expansion is empty the literal terms are
    empty too. *)
Theorem search_terms_fallback_is_idle (property_terms : list string)
    (synonyms_data : odict pyval) :
  search_terms_of property_terms synonyms_data
  = _build_property_search_terms property_terms synonyms_data.
Proof. exact (search_terms_of_expand property_terms synonyms_data). Qed.

(** ** The term index: what it holds *)

Lemma claims_lower (t c : string) (syns : list string) :
  claims t c syns -> Str.is_lower t.
Proof. intros [->|(s & _ & ->)]; apply str_lower_is_lower. Qed.

(** X5.  Every key of the index is lowercase and its canonical is a key of the
    flattened mappings; every canonical of the mappings and every synonym
    listed for one is indexed under its lowercase form. *)
Theorem index_holds_the_graph (all_mappings : odict (list string)) :
  (forall t c, term_to_canonical_of all_mappings !! t = Some c ->
     Str.is_lower t /\ c ∈ all_mappings.*1)
  /\
  (forall c syns s, (c, syns) ∈ all_mappings ->
     is_Some (term_to_canonical_of all_mappings !! Str.lower c)
     /\ (s ∈ syns -> is_Some (term_to_canonical_of all_mappings !! Str.lower s))).
Proof.
  split.
  - intros t c (syns & Hin & Hcl)%term_to_canonical_origin. split.
    + by apply (claims_lower t c syns).
    + apply list_elem_of_fmap. by exists (c, syns).
  - intros c syns s Hin.
    assert (forall t, claims t c syns ->
              is_Some (term_to_canonical_of all_mappings !! t)) as Hcov.
    { intros t Hcl. apply list_elem_of_split in Hin as (before & after & ->).
      unfold term_to_canonical_of. rewrite index_from_app.
      change ((c, syns) :: after) with ([(c, syns)] ++ after)%list.
      rewrite index_from_app.
      destruct (index_from ∅ before !! t) as [x|] eqn:E.
      - exists x. apply index_from_keeps. unfold index_from at 1. simpl.
        by apply index_group_keeps.
      - exists c. apply index_from_keeps. unfold index_from at 1. simpl.
        by apply index_group_claims. }
    split; [apply Hcov; by left|].
    intros Hs. apply Hcov. right. by exists s.
Qed.

Lemma index_holds_the_graph_witness :
  (Str.is_lower "tg" /\ "glass transition" ∈ [("glass transition", ["Tg"])].*1)
  /\ is_Some (term_to_canonical_of [("glass transition", ["Tg"])] !! "tg").
Proof.
  destruct (index_holds_the_graph [("glass transition", ["Tg"])]) as [Hkeys Hcov].
  split.
  - apply Hkeys. vm_compute. reflexivity.
  - destruct (Hcov "glass transition" ["Tg"] "Tg") as [_ Hsyn].
    + apply elem_of_cons. by left.
    + apply Hsyn. apply elem_of_cons. by left.
Defined.

Lemma expand_empty_iff_witness :
  _build_property_search_terms [" "; EmptyString] thermal_graph = ∅.
Proof.
  apply (proj2 (expand_empty_iff [" "; EmptyString] thermal_graph)). intros r Hin.
  apply elem_of_cons in Hin as [-> | Hin]; [reflexivity|].
  apply elem_of_cons in Hin as [-> | Hin]; [reflexivity|].
  exfalso. exact (proj1 (elem_of_nil _) Hin).
Defined.

(** ** Triple detection: how term sets combine *)

Lemma word_hit_union (sentence : string) (t1 t2 : gset string) :
  word_hit sentence (t1 ∪ t2) = word_hit sentence t1 || word_hit sentence t2.
Proof.
  apply eq_true_iff_eq. rewrite orb_true_iff, !word_hit_true. split.
  - intros (t & [Hin|Hin]%elem_of_union & Hf); [left|right]; by exists t.
  - intros [(t & Hin & Hf)|(t & Hin & Hf)]; exists t;
      (split; [|done]); apply elem_of_union; auto.
Qed.

(** The detector as the conjunction of its signals, for the proofs below. *)
Lemma has_valid_triple_signals (sentence : string) (property_terms : gset string) :
  _has_valid_triple sentence property_terms
  = polymer_signal sentence
    && word_hit sentence property_terms
    && value_signal sentence.
Proof.
  unfold _has_valid_triple, polymer_signal, value_signal, has_num_of.
  rewrite is_nil_app, !find_whole_word_nil, regex_poly_patterns_nil.
  destruct (word_hit sentence POLYMER_TERMS), (Re.found POLY_BRACKET sentence),
    (Re.found POLY_CLASS sentence), (word_hit sentence property_terms),
    (Re.found NUM_UNIT sentence), (Re.found NUM_ONLY sentence); reflexivity.
Qed.

Lemma has_valid_triple_of_union (sentence : string) (t1 t2 : gset string) :
  _has_valid_triple sentence (t1 ∪ t2)
  = _has_valid_triple sentence t1 || _has_valid_triple sentence t2.
Proof.
  rewrite !has_valid_triple_signals, word_hit_union.
  destruct (polymer_signal sentence), (word_hit sentence t1),
    (word_hit sentence t2), (value_signal sentence); reflexivity.
Qed.

(** X6.  A sentence holds a triple for the union of two term sets exactly when
    it holds one for either of them. *)
Theorem has_valid_triple_union (sentence : string) (t1 t2 : gset string) :
  _has_valid_triple sentence (t1 ∪ t2)
  = _has_valid_triple sentence t1 || _has_valid_triple sentence t2.
Proof. exact (has_valid_triple_of_union sentence t1 t2). Qed.

Lemma word_hit_empty (sentence : string) : word_hit sentence ∅ = false.
Proof. unfold word_hit. by rewrite elements_empty. Qed.

Lemma has_valid_triple_empty (sentence : string) : _has_valid_triple sentence ∅ = false.
Proof.
  rewrite has_valid_triple_signals, word_hit_empty.
  by destruct (polymer_signal sentence).
Qed.

(** X7.  Adding search terms never turns a passing document into a failing
    one. *)
Theorem more_terms_keep_a_paper_passing (full_text : string) (t1 t2 : gset string) :
  t1 ⊆ t2 ->
  (is_paper_with_property_triples full_text t1).1 = true ->
  (is_paper_with_property_triples full_text t2).1 = true.
Proof.
  unfold is_paper_with_property_triples. intros Hsub Hpass.
  apply scan_sentences_true in Hpass as (sent & Hin & Hq).
  apply list_elem_of_split in Hin as (before & after & ->).
  rewrite scan_sentences_found; [done|].
  assert (t2 = t1 ∪ t2) as ->.
  { apply set_eq. intros x. rewrite elem_of_union. split; [by right|].
    intros [H|H]; [by apply Hsub|done]. }
  by rewrite has_valid_triple_of_union, Hq.
Qed.

Lemma more_terms_keep_a_paper_passing_witness :
  (is_paper_with_property_triples pmma_text {[ "tg"; "mw" ]}).1 = true.
Proof.
  apply (more_terms_keep_a_paper_passing pmma_text {[ "tg" ]} {[ "tg"; "mw" ]}).
  - intros x Hx. apply elem_of_union. by left.
  - vm_compute. reflexivity.
Defined.

(** ** The corpus loop: what the two lists hold *)

Lemma scan_sentences_reason (sents : list string) (property_terms : gset string) :
  (scan_sentences sents property_terms).1 = false ->
  (scan_sentences sents property_terms).2 = REASON_NONE.
Proof.
  induction sents as [|s sents IH]; simpl; [done|].
  by destruct (_has_valid_triple s property_terms).
Qed.

Lemma sublist_list_filter {A} (f : A -> bool) (l : list A) :
  sublist (List.filter f l) l.
Proof.
  induction l as [|a l IH]; simpl; [constructor|].
  destruct (f a); by constructor.
Qed.

Section CorpusLists.

Variable parse : string -> outcome parsed.

Lemma failure_of_path (search_terms : gset string) (path : string)
    (entry : string * string) :
  failure_of parse search_terms path = Some entry -> entry.1 = path.
Proof.
  unfold failure_of. destruct (parse path) as [doc|e].
  - destruct (is_paper_with_property_triples _ _).1; [done|]. by intros [= <-].
  - by intros [= <-].
Qed.

Lemma failure_of_passes (search_terms : gset string) (path : string) :
  failure_of parse search_terms path = None <-> passes parse search_terms path = true.
Proof.
  unfold failure_of, passes. destruct (parse path) as [doc|e]; [|done].
  by destruct (is_paper_with_property_triples _ _).1.
Qed.

Lemma failing_paths (search_terms : gset string) (files : list string) :
  (omap (failure_of parse search_terms) files).*1
  = List.filter (fun p => negb (passes parse search_terms p)) files.
Proof.
  induction files as [|p files IH]; simpl; [done|].
  destruct (failure_of parse search_terms p) as [entry|] eqn:E; simpl.
  - destruct (passes parse search_terms p) eqn:Ep.
    + apply failure_of_passes in Ep. congruence.
    + simpl. f_equal; [by apply (failure_of_path search_terms)|exact IH].
  - apply failure_of_passes in E. rewrite E. exact IH.
Qed.

Lemma filter_split_length {A} (f : A -> bool) (l : list A) :
  length (List.filter f l) + length (List.filter (fun a => negb (f a)) l) = length l.
Proof. induction l as [|a l IH]; simpl; [done|]. destruct (f a); simpl; lia. Qed.

(** X8.  Every file of the folder lands in exactly one of the two lists, and
    each list keeps the processing order of the files. *)
Theorem filter_papers_partitions (html_files property_terms : list string)
    (synonyms_data : odict pyval) :
  let result := filter_papers parse html_files property_terms synonyms_data in
  length (passing result) + length (failing result) = length html_files
  /\ sublist (passing result) html_files
  /\ sublist (fst <$> failing result) html_files
  /\ forall p, p ∈ html_files ->
       (p ∈ passing result /\ (p ∉ (fst <$> failing result)))
       \/ ((p ∉ passing result) /\ p ∈ (fst <$> failing result)).
Proof.
  cbv zeta. rewrite filter_papers_lists. simpl.
  set (T := search_terms_of property_terms synonyms_data).
  rewrite <- (length_fmap fst (omap _ _)), failing_paths.
  split; [apply filter_split_length|].
  split; [apply sublist_list_filter|]. split; [apply sublist_list_filter|].
  intros p Hin. rewrite !list_elem_of_In, !filter_In, <- !list_elem_of_In.
  destruct (passes parse T p); simpl; [left|right].
  - split; [done|]. by intros [_ ?].
  - split; [|done]. by intros [_ ?].
Qed.

(** X9.  The verdict on each document: it passes exactly when its parse
    returns and its text holds a triple; it fails with the message of the
    parse error, or with the fixed reason when no sentence qualifies. *)
Theorem filter_papers_verdicts (html_files property_terms : list string)
    (synonyms_data : odict pyval) (path reason : string) :
  let result := filter_papers parse html_files property_terms synonyms_data in
  let search_terms := _build_property_search_terms property_terms synonyms_data in
  (path ∈ passing result <->
     path ∈ html_files /\
     exists doc, parse path = Returned doc
       /\ (is_paper_with_property_triples (_build_full_text doc) search_terms).1 = true)
  /\
  ((path, reason) ∈ failing result <->
     path ∈ html_files /\
     ((exists e, parse path = Raised e /\ reason = "parse error: " +:+ e)
      \/ (exists doc, parse path = Returned doc
            /\ (is_paper_with_property_triples (_build_full_text doc) search_terms).1
               = false
            /\ reason = "no matching (polymer, property, value) triples"))).
Proof.
  cbv zeta. rewrite filter_papers_lists, search_terms_of_expand. simpl.
  set (T := _build_property_search_terms property_terms synonyms_data).
  split.
  - rewrite list_elem_of_In, filter_In, <- list_elem_of_In. unfold passes.
    destruct (parse path) as [doc|e]; split.
    + intros [Hin Hp]. split; [done|]. by exists doc.
    + intros [Hin (doc' & [= <-] & Hp)]. done.
    + by intros [_ ?].
    + by intros [_ (doc & ? & _)].
  - rewrite list_elem_of_omap. unfold failure_of. split.
    + intros (p & Hin & Hf). destruct (parse p) as [doc|e] eqn:Ep.
      * destruct (is_paper_with_property_triples _ _).1 eqn:Ev; [done|].
        injection Hf as <- <-. split; [done|]. right. exists doc.
        split; [done|]. split; [done|]. exact (scan_sentences_reason _ _ Ev).
      * injection Hf as <- <-. split; [done|]. left. by exists e.
    + intros [Hin [(e & Ep & ->)|(doc & Ep & Ev & ->)]]; exists path;
        (split; [done|]); rewrite Ep; [done|]. rewrite Ev.
      f_equal. f_equal. exact (scan_sentences_reason _ _ Ev).
Qed.

(** X10.  Documents are judged independently: the lists for two folders' files
    taken together are the lists of each, one after the other. *)
Theorem filter_papers_app (files1 files2 property_terms : list string)
    (synonyms_data : odict pyval) :
  filter_papers parse (files1 ++ files2) property_terms synonyms_data
  = Tally
      (passing (filter_papers parse files1 property_terms synonyms_data)
       ++ passing (filter_papers parse files2 property_terms synonyms_data))
      (failing (filter_papers parse files1 property_terms synonyms_data)
       ++ failing (filter_papers parse files2 property_terms synonyms_data)).
Proof.
  rewrite !filter_papers_lists. simpl. by rewrite List.filter_app, omap_app.
Qed.

(** X11.  When every requested term is blank, no document passes. *)
Theorem blank_terms_pass_nothing (html_files property_terms : list string)
    (synonyms_data : odict pyval) :
  (forall t, t ∈ property_terms -> Str.strip t = EmptyString) ->
  passing (filter_papers parse html_files property_terms synonyms_data) = [].
Proof.
  intros Hblank. rewrite filter_papers_lists, search_terms_of_expand. simpl.
  rewrite (proj2 (expand_empty_blank _ _) Hblank).
  induction html_files as [|p files IH]; simpl; [done|].
  unfold passes at 1. destruct (parse p) as [doc|e]; [|exact IH].
  destruct (is_paper_with_property_triples (_build_full_text doc) ∅).1 eqn:E;
    [|exact IH].
  apply scan_sentences_true in E as (sent & _ & Hq).
  by rewrite has_valid_triple_empty in Hq.
Qed.

End CorpusLists.

Lemma blank_terms_pass_nothing_witness :
  passing (filter_papers sample_parse ["a.html"; "b.html"; "c.html"] ["  "] []) = [].
Proof.
  apply blank_terms_pass_nothing. intros t Hin.
  apply elem_of_cons in Hin as [-> | Hin]; [reflexivity|].
  exfalso. exact (proj1 (elem_of_nil _) Hin).
Defined.

Lemma filter_papers_partitions_witness :
  ("b.html"
   ∉ passing (filter_papers sample_parse ["a.html"; "b.html"; "c.html"] ["Tg"] []))
  /\ "b.html"
     ∈ (fst <$> failing (filter_papers sample_parse ["a.html"; "b.html"; "c.html"] ["Tg"] [])).
Proof.
  destruct (filter_papers_partitions sample_parse ["a.html"; "b.html"; "c.html"] ["Tg"] [])
    as (_ & _ & _ & Hone).
  destruct (Hone "b.html") as [[Hp _] | H]; [| |exact H].
  - apply elem_of_cons. right. apply elem_of_cons. by left.
  - exfalso. vm_compute in Hp.
    apply elem_of_cons in Hp as [Hp | Hp]; [discriminate Hp|].
    exact (proj1 (elem_of_nil _) Hp).
Defined.

Lemma filter_papers_verdicts_witness :
  ("b.html", "parse error: not an article")
  ∈ failing (filter_papers sample_parse ["a.html"; "b.html"; "c.html"] ["Tg"] []).
Proof.
  destruct (filter_papers_verdicts sample_parse ["a.html"; "b.html"; "c.html"] ["Tg"] []
              "b.html" "parse error: not an article") as [_ Hfail].
  apply Hfail. split.
  - apply elem_of_cons. right. apply elem_of_cons. by left.
  - left. exists "not an article". split; reflexivity.
Defined.

(** ** Triple detection: the case of the sentence *)












(** ** Triple detection: a sentence without a digit *)

Lemma digit_free_cons (c : ascii) (s : string) :
  digit_free (String c s) <-> Char.is_digit c = false /\ digit_free s.
Proof.
  unfold digit_free. simpl. split.
  - intros H. split; [apply H; apply elem_of_cons; by left|].
    intros c' Hin. apply H. apply elem_of_cons. by right.
  - intros [Hc Hs] c' [->|Hin]%elem_of_cons; [done|by apply Hs].
Qed.

Lemma value_match_needs_digit (pv : option ascii) (s : string) :
  match s with String c _ => Char.is_digit c = false | EmptyString => True end ->
  Re.match_here NUM_UNIT pv s = None /\ Re.match_here NUM_ONLY pv s = None.
Proof.
  unfold Re.match_here, NUM_UNIT, NUM_ONLY, number, Re.Plus. simpl.
  destruct s as [|c s].
  - intros _. by destruct (Re.at_boundary pv EmptyString).
  - intros ->. by destruct (Re.at_boundary pv (String c s)).
Qed.

Lemma value_patterns_need_digit (pv : option ascii) (s : string) :
  digit_free s ->
  Re.search_from NUM_UNIT pv s = None /\ Re.search_from NUM_ONLY pv s = None.
Proof.
  revert pv. induction s as [|c s IH]; intros pv Hfree.
  - destruct (value_match_needs_digit pv EmptyString I) as [Hu Ho].
    cbn [Re.search_from]. by rewrite Hu, Ho.
  - apply digit_free_cons in Hfree as [Hc Hs].
    destruct (IH (Some c) Hs) as [IHu IHo].
    destruct (value_match_needs_digit pv (String c s) Hc) as [Hu Ho].
    cbn [Re.search_from]. by rewrite Hu, Ho.
Qed.

(** X13.  A sentence without a decimal digit never holds a triple. *)
Theorem no_digit_no_triple (sentence : string) (property_terms : gset string) :
  digit_free sentence -> _has_valid_triple sentence property_terms = false.
Proof.
  intros Hfree. rewrite has_valid_triple_signals.
  destruct (value_patterns_need_digit None sentence Hfree) as [Hu Ho].
  unfold value_signal, Re.found, Re.search. rewrite Hu, Ho.
  by rewrite !andb_false_r.
Qed.

Lemma no_digit_no_triple_witness :
  _has_valid_triple "The polymer has a high Tg." {[ "tg" ]} = false.
Proof.
  apply no_digit_no_triple. intros c Hin. vm_compute in Hin.
  repeat (apply elem_of_cons in Hin as [-> | Hin]; [reflexivity|]).
  exfalso. exact (proj1 (elem_of_nil _) Hin).
Defined.

(** ** Whole-word search: what counts as a hit *)

Lemma char_eqb_eq (a b : ascii) : Char.eqb a b = true <-> a = b.
Proof.
  unfold Char.eqb, Char.cp. rewrite N.eqb_eq. split; [|by intros ->].
  intros H. rewrite <- (ascii_N_embedding a), <- (ascii_N_embedding b). by rewrite H.
Qed.

Lemma append_nil_l (b : string) : EmptyString +:+ b = b.
Proof. reflexivity. Qed.

Lemma append_cons (c : ascii) (a b : string) : String c a +:+ b = String c (a +:+ b).
Proof. reflexivity. Qed.

Lemma exec_lit_prefix (t : string) (st : Re.mstate)
    (k : Re.mstate -> option Re.mstate) (b : string) :
  Re.rest st = t +:+ b ->
  Re.exec (Re.lit t) st k
  = k (Re.MState (Re.pos st + String.length t) (prev_after (Re.prev st) t) b
                 (Re.caps st)).
Proof.
  revert st. induction t as [|c t IH]; intros [n pv s cs]; simpl; intros E.
  - subst s. by rewrite Nat.add_0_r.
  - subst s. rewrite append_cons. simpl.
    rewrite (proj2 (char_eqb_eq c c)) by done.
    unfold Re.advance. simpl.
    rewrite (IH (Re.MState (S n) (Some c) (t +:+ b) cs) eq_refl).
    simpl. f_equal. f_equal. lia.
Qed.

Lemma exec_lit_some (t : string) (st : Re.mstate)
    (k : Re.mstate -> option Re.mstate) (x : Re.mstate) :
  Re.exec (Re.lit t) st k = Some x -> exists b, Re.rest st = t +:+ b.
Proof.
  revert st. induction t as [|c t IH]; intros [n pv s cs]; simpl; intros E.
  - by exists s.
  - destruct s as [|c' s]; [done|].
    destruct (Char.eqb c c') eqn:Ec; [|done]. apply char_eqb_eq in Ec as <-.
    apply IH in E as (b & Hb). simpl in Hb. exists b. by rewrite append_cons, Hb.
Qed.

Lemma whole_word_here (term : string) (pv : option ascii) (s : string) :
  is_Some (Re.match_here (whole_word term) pv s) <->
  exists b,
    s = Str.lower term +:+ b
    /\ Re.at_boundary pv s = true
    /\ Re.at_boundary (prev_after pv (Str.lower term)) b = true.
Proof.
  unfold Re.match_here, whole_word. cbn [Re.seqs Re.exec Re.prev Re.rest].
  split.
  - destruct (Re.at_boundary pv s) eqn:Eb;
      [|intros [? ?]; discriminate].
    destruct (Re.exec (Re.lit (Str.lower term)) _ _) as [x|] eqn:E;
      [|intros [? ?]; discriminate].
    intros _. pose proof (exec_lit_some _ _ _ _ E) as (b & Hb). simpl in Hb.
    rewrite (exec_lit_prefix (Str.lower term) (Re.MState 0 pv s []) _ b Hb) in E.
    simpl in E.
    exists b. split; [done|]. split; [done|].
    by destruct (Re.at_boundary (prev_after pv (Str.lower term)) b).
  - intros (b & -> & -> & Hb2).
    rewrite (exec_lit_prefix (Str.lower term)
               (Re.MState 0 pv (Str.lower term +:+ b) []) _ b eq_refl).
    simpl. rewrite Hb2. by eexists.
Qed.

Lemma search_from_some (r : Re.regex) (pv : option ascii) (s : string) :
  is_Some (Re.search_from r pv s) <->
  exists a b, s = a +:+ b /\ is_Some (Re.match_here r (prev_after pv a) b).
Proof.
  revert pv. induction s as [|c s IH]; intros pv; cbn [Re.search_from].
  - destruct (Re.match_here r pv EmptyString) as [m|] eqn:E; split.
    + intros _. exists EmptyString, EmptyString. simpl. by rewrite E.
    + by intros _.
    + by intros [? ?].
    + intros ([|c a] & b & Hs & Hm); [|by rewrite append_cons in Hs].
      rewrite append_nil_l in Hs. subst b. simpl in Hm. rewrite E in Hm.
      by destruct Hm.
  - destruct (Re.match_here r pv (String c s)) as [m|] eqn:E.
    + split; [|done]. intros _. exists EmptyString, (String c s). simpl. by rewrite E.
    + rewrite IH. split.
      * intros (a & b & -> & Hm). by exists (String c a), b.
      * intros ([|c' a] & b & Hs & Hm).
        -- rewrite append_nil_l in Hs. subst b. simpl in Hm.
           rewrite E in Hm. by destruct Hm.
        -- rewrite append_cons in Hs. injection Hs as <- ->. by exists a, b.
Qed.

Lemma found_whole_word (term sentence : string) :
  Re.found (whole_word term) sentence = true <->
  exists a, whole_word_at (Str.lower term) a sentence.
Proof.
  unfold Re.found, Re.search, whole_word_at.
  transitivity (is_Some (Re.search_from (whole_word term) None sentence)).
  { destruct (Re.search_from _ _ _); split; done. }
  rewrite search_from_some. split.
  - intros (a & s & -> & (b & -> & Hb1 & Hb2)%whole_word_here). by exists a, b.
  - intros (a & b & -> & Hb1 & Hb2). exists a, (Str.lower term +:+ b).
    split; [done|]. apply whole_word_here. by exists b.
Qed.

(** X14.  A term is reported exactly when it is in the set and its lowercase form
    occurs in the lowercased sentence with a word boundary on each side. *)
Theorem find_whole_word_spec (sentence : string) (terms : gset string)
    (term : string) :
  term ∈ _find_whole_word sentence terms <->
  term ∈ terms /\ exists a, whole_word_at (Str.lower term) a (Str.lower sentence).
Proof.
  unfold _find_whole_word.
  rewrite list_elem_of_In, filter_In, <- list_elem_of_In, elem_of_elements.
  by rewrite found_whole_word.
Qed.

Lemma find_whole_word_spec_witness :
  "Tg" ∈ _find_whole_word "A high Tg." {[ "Tg" ]}
  /\ "Tg" ∉ _find_whole_word "A high Tgx." {[ "Tg" ]}.
Proof.
  split.
  - apply (find_whole_word_spec "A high Tg." {[ "Tg" ]} "Tg"). split.
    + by apply elem_of_singleton.
    + exists "a high ", ".". repeat split; reflexivity.
  - vm_compute. intros H. exact (proj1 (elem_of_nil _) H).
Defined.

(** ** Sentence splitting: where the sentences come from *)

Lemma chars_of_list (l : list ascii) : Str.chars (string_of_list_ascii l) = l.
Proof. induction l as [|c l IH]; simpl; [done|]. by rewrite IH. Qed.

Lemma occurs_in_trans (p q t : string) : occurs_in p q -> occurs_in q t -> occurs_in p t.
Proof.
  intros (a & b & Hq) (a' & b' & Ht). exists (a' ++ a)%list, (b ++ b')%list.
  rewrite Ht, Hq. by rewrite <- !app_assoc.
Qed.

Lemma lstrip_suffix (s : string) :
  exists a, Str.chars s = (a ++ Str.chars (Str.lstrip s))%list.
Proof.
  induction s as [|c s (a & IH)]; simpl; [by exists []|].
  destruct (Char.is_space c); [|by exists []].
  exists (c :: a). simpl. by rewrite <- IH.
Qed.

Lemma rstrip_prefix (s : string) :
  exists b, Str.chars s = (Str.chars (Str.rstrip s) ++ b)%list.
Proof.
  induction s as [|c s (b & IH)]; simpl; [by exists []|].
  destruct (Char.is_space c && Str.is_empty (Str.rstrip s)).
  - by exists (c :: Str.chars s).
  - exists b. simpl. by rewrite <- IH.
Qed.

Lemma strip_occurs (s : string) : occurs_in (Str.strip s) s.
Proof.
  unfold occurs_in, Str.strip.
  destruct (lstrip_suffix s) as (a & Ha).
  destruct (rstrip_prefix (Str.lstrip s)) as (b & Hb).
  exists a, b. by rewrite Ha, Hb.
Qed.

(** The pieces of a split are contiguous runs of the subject. *)
Lemma split_from_pieces (r : Re.regex) (s : string) (skip : nat)
    (cur : list ascii) (pv : option ascii) (piece : string) :
  skip = 0 \/ cur = [] ->
  piece ∈ Re.split_from r skip cur pv s ->
  exists a b, (rev cur ++ Str.chars s)%list = (a ++ Str.chars piece ++ b)%list.
Proof.
  revert skip cur pv. induction s as [|c s IH]; intros skip cur pv Hinv Hin.
  - simpl in Hin. apply list_elem_of_singleton in Hin as ->.
    exists [], []. simpl. by rewrite chars_of_list, app_nil_r.
  - cbn [Re.split_from] in Hin. destruct skip as [|n].
    + assert (piece ∈ Re.split_from r 0 (c :: cur) (Some c) s ->
              exists a b, (rev cur ++ Str.chars (String c s))%list
                          = (a ++ Str.chars piece ++ b)%list) as Hcarry.
      { intros H. apply IH in H as (a & b & H); [|by left].
        exists a, b. rewrite <- H. simpl. by rewrite <- app_assoc. }
      destruct (Re.match_here r pv (String c s)) as [m|]; [|by apply Hcarry].
      destruct (Re.m_len m) as [|n]; [by apply Hcarry|].
      apply elem_of_cons in Hin as [->|Hin].
      * exists [], (Str.chars (String c s)). simpl. by rewrite chars_of_list.
      * apply IH in Hin as (a & b & H); [|by right].
        exists (rev cur ++ c :: a)%list, b. simpl in *. rewrite H.
        by rewrite <- app_assoc.
    + destruct Hinv as [? | ->]; [done|].
      apply IH in Hin as (a & b & H); [|by right].
      exists (c :: a), b. simpl in *. by rewrite H.
Qed.

(** X15.  Every sentence returned is a contiguous piece of the text in which each
    run of whitespace has been replaced by one space: the splitter drops
    text, it never makes any up. *)
Theorem sentences_occur_in_the_text (text sentence : string) :
  sentence ∈ _split_into_sentences text ->
  occurs_in sentence (Re.sub WHITESPACE " " text).
Proof.
  unfold _split_into_sentences.
  destruct (Str.is_empty text); [by intros ?%elem_of_nil|].
  rewrite list_elem_of_In, in_map_iff. intros (q & <- & Hq).
  apply filter_In in Hq as [Hq _]. apply list_elem_of_In in Hq.
  apply (occurs_in_trans _ q); [apply strip_occurs|].
  unfold Re.split in Hq.
  apply split_from_pieces in Hq as (a & b & H); [|by left].
  exists a, b. by rewrite <- H.
Qed.

Lemma sentences_occur_in_the_text_witness :
  occurs_in "The polymer poly(methyl methacrylate) showed a Tg of 105 C in this study."
            (Re.sub WHITESPACE " " pmma_text).
Proof.
  apply sentences_occur_in_the_text. vm_compute. apply elem_of_cons. by left.
Defined.

(** ** Sentence splitting: whitespace *)

Lemma star_spaces (s : string) (n : nat) (pv : option ascii)
    (cs : list (nat * (nat * nat))) :
  exists st, Re.star Char.is_space Some n pv cs s = Some st
             /\ Re.pos st = n + leading_spaces s.
Proof.
  revert n pv. induction s as [|c s IH]; intros n pv; simpl.
  - eexists. split; [done|]. simpl. lia.
  - destruct (Char.is_space c).
    + destruct (IH (S n) (Some c)) as (st & -> & Hpos). exists st. split; [done|]. lia.
    + eexists. split; [done|]. simpl. lia.
Qed.

Lemma whitespace_here (pv : option ascii) (c : ascii) (s : string) :
  if Char.is_space c
  then exists m, Re.match_here WHITESPACE pv (String c s) = Some m
                 /\ Re.m_len m = S (leading_spaces s)
  else Re.match_here WHITESPACE pv (String c s) = None.
Proof.
  unfold Re.match_here, WHITESPACE, Re.Plus, Re.m_len. simpl.
  destruct (Char.is_space c); [|done].
  destruct (star_spaces s 1 (Some c) []) as (st & -> & Hpos).
  eexists. split; [done|]. simpl. exact Hpos.
Qed.

Lemma char_space_is_space : Char.is_space " " = true.
Proof. reflexivity. Qed.

Lemma single_spaced_cons_plain (c : ascii) (l : list ascii) :
  Char.is_space c = false -> single_spaced l -> single_spaced (c :: l).
Proof. intros Hc Hl. simpl. split; [|done]. intros ?. congruence. Qed.

Lemma sub_whitespace_single_spaced (s : string) (pv : option ascii) :
  single_spaced (Str.chars (Re.sub_from WHITESPACE " " 0 pv s))
  /\ single_spaced (Str.chars (Re.sub_from WHITESPACE " " (leading_spaces s) pv s))
  /\ match Str.chars (Re.sub_from WHITESPACE " " (leading_spaces s) pv s) with
     | c :: _ => Char.is_space c = false
     | [] => True
     end.
Proof.
  revert pv. induction s as [|c s IH]; intros pv; [done|].
  destruct (IH (Some c)) as (IH0 & IHrun & IHhead).
  assert (single_spaced (Str.chars (Re.sub_from WHITESPACE " " 0 pv (String c s))))
    as Hzero.
  { cbn [Re.sub_from]. pose proof (whitespace_here pv c s) as Hw.
    destruct (Char.is_space c) eqn:Ec.
    - destruct Hw as (m & -> & ->).
      rewrite append_cons, append_nil_l. simpl. split; [|done].
      intros _. split; [done|]. exact IHhead.
    - rewrite Hw. simpl. split; [|done]. intros ?. congruence. }
  split; [exact Hzero|].
  cbn [leading_spaces]. destruct (Char.is_space c) eqn:Ec.
  - cbn [Re.sub_from]. by split.
  - split; [exact Hzero|].
    cbn [Re.sub_from]. pose proof (whitespace_here pv c s) as Hw.
    rewrite Ec in Hw. rewrite Hw. simpl. exact Ec.
Qed.

Lemma single_spaced_suffix (a l : list ascii) :
  single_spaced (a ++ l) -> single_spaced l.
Proof. induction a as [|c a IH]; simpl; [done|]. intros [_ H]. by apply IH. Qed.

Lemma single_spaced_prefix (l b : list ascii) :
  single_spaced (l ++ b) -> single_spaced l.
Proof.
  induction l as [|c l IH]; simpl; [done|]. intros [Hc Hl]. split; [|by apply IH].
  intros Hs. destruct (Hc Hs) as [-> Hnext]. split; [done|].
  by destruct l.
Qed.

Lemma single_spaced_occurs (p t : string) :
  occurs_in p t -> single_spaced (Str.chars t) -> single_spaced (Str.chars p).
Proof.
  intros (a & b & ->) H.
  by apply single_spaced_suffix, single_spaced_prefix in H.
Qed.

Lemma sentence_occurs (text sentence : string) :
  sentence ∈ _split_into_sentences text ->
  occurs_in sentence (Re.sub WHITESPACE " " text).
Proof.
  unfold _split_into_sentences.
  destruct (Str.is_empty text); [by intros ?%elem_of_nil|].
  rewrite list_elem_of_In, in_map_iff. intros (q & <- & Hq).
  apply filter_In in Hq as [Hq _]. apply list_elem_of_In in Hq.
  apply (occurs_in_trans _ q); [apply strip_occurs|].
  unfold Re.split in Hq.
  apply split_from_pieces in Hq as (a & b & H); [|by left].
  exists a, b. by rewrite <- H.
Qed.

(** X16.  Every sentence returned is trimmed and has its whitespace normalised:
    the only whitespace character left is the plain space, and never two
    in a row. *)
Theorem sentences_are_single_spaced (text sentence : string) :
  sentence ∈ _split_into_sentences text ->
  Str.strip sentence = sentence /\ single_spaced (Str.chars sentence).
Proof.
  intros Hin. split.
  - unfold _split_into_sentences in Hin.
    destruct (Str.is_empty text); [by apply elem_of_nil in Hin|].
    apply list_elem_of_In, in_map_iff in Hin as (q & <- & _).
    apply str_strip_idem.
  - apply (single_spaced_occurs _ _ (sentence_occurs _ _ Hin)).
    apply sub_whitespace_single_spaced.
Qed.

Lemma sentences_are_single_spaced_witness :
  Str.strip "The polymer poly(methyl methacrylate) showed a Tg of 105 C in this study."
  = "The polymer poly(methyl methacrylate) showed a Tg of 105 C in this study."
  /\ single_spaced
       (Str.chars
          "The polymer poly(methyl methacrylate) showed a Tg of 105 C in this study.").
Proof.
  apply (sentences_are_single_spaced pmma_text).
  vm_compute. apply elem_of_cons. by left.
Defined.

(** ** Loading the synonyms *)

Lemma contribution_without_graph (req : string) :
  contribution [] (term_to_canonical_of []) req = {[ req ]}.
Proof.
  unfold contribution, expand_one, term_to_canonical_of, index_from. simpl.
  rewrite lookup_empty. by rewrite (left_id_L ∅ (∪)).
Qed.

(** X17.  Without a synonyms file the graph is empty and the search terms are the
    requested terms themselves, trimmed and lowercased. *)
Theorem missing_synonyms_file_leaves_terms_literal (requested : list string) :
  exists synonyms_data,
    _load_polymer_synonyms None = Returned synonyms_data
    /\ _build_property_search_terms requested synonyms_data
       = list_to_set (requested_lower_of requested).
Proof.
  exists []. split; [done|]. apply set_eq. intros s.
  rewrite expand_elem, elem_of_list_to_set. unfold all_mappings_of. simpl.
  split.
  - intros (req & Hin & Hs). rewrite contribution_without_graph in Hs.
    by apply elem_of_singleton in Hs as ->.
  - intros Hin. exists s. split; [done|].
    rewrite contribution_without_graph. by apply elem_of_singleton.
Qed.

Lemma dict_set_elem {V} (k : string) (v : V) (d : odict V) (k' : string) (v' : V) :
  (k', v') ∈ dict_set k v d -> (k', v') = (k, v) \/ (k', v') ∈ d.
Proof.
  induction d as [|[k0 v0] d IH]; simpl.
  - intros ->%list_elem_of_singleton. by left.
  - destruct (decide (k = k0)) as [->|Hne].
    + intros [->|H]%elem_of_cons; [by left|]. right. apply elem_of_cons. by right.
    + intros [->|H]%elem_of_cons.
      * right. apply elem_of_cons. by left.
      * apply IH in H as [H|H]; [by left|]. right. apply elem_of_cons. by right.
Qed.

Lemma flatten_category_elem (acc : odict (list string)) (m : odict pyval)
    (c : string) (syns : list string) :
  (c, syns) ∈ flatten_category acc m ->
  (c, syns) ∈ acc \/ exists l, (c, PList l) ∈ m /\ syns = str_items l.
Proof.
  unfold flatten_category. revert acc.
  induction m as [|[c0 v] m IH]; simpl; intros acc H; [by left|].
  apply IH in H as [H|(l & Hin & ->)].
  - destruct v as [| | | |l|]; try (left; exact H).
    apply dict_set_elem in H as [[= -> ->]|H]; [|by left].
    right. exists l. split; [apply elem_of_cons; by left|done].
  - right. exists l. split; [apply elem_of_cons; by right|done].
Qed.

Lemma all_mappings_elem (synonyms_data : odict pyval) (c : string)
    (syns : list string) :
  (c, syns) ∈ all_mappings_of synonyms_data ->
  exists cat m l,
    (cat, PDict m) ∈ synonyms_data /\ (c, PList l) ∈ m /\ syns = str_items l.
Proof.
  unfold all_mappings_of.
  assert (forall acc : odict (list string),
    (c, syns) ∈ fold_left
      (fun acc '(category, mappings) =>
         match mappings with
         | PDict m => flatten_category acc m
         | _ => acc
         end) synonyms_data acc ->
    (c, syns) ∈ acc \/ exists cat m l,
      (cat, PDict m) ∈ synonyms_data /\ (c, PList l) ∈ m /\ syns = str_items l) as H.
  { induction synonyms_data as [|[cat v] G IH]; simpl; intros acc H; [by left|].
    apply IH in H as [H|(cat' & m & l & Hin & Hm & ->)].
    - destruct v as [| | | | |m]; try (left; exact H).
      apply flatten_category_elem in H as [H|(l & Hm & ->)]; [by left|].
      right. exists cat, m, l. split; [apply elem_of_cons; by left|done].
    - right. exists cat', m, l. split; [apply elem_of_cons; by right|done]. }
  intros Hin. apply H in Hin as [Hin|Hin]; [by apply elem_of_nil in Hin|done].
Qed.

(** X18.  Every canonical term of the flattened mappings, with its synonyms,
    comes from a list-valued entry of a category of the file whose key
    starts with an underscore; the synonyms are the strings of that list.
    Other categories, other values and other items never reach the
    search. *)
Theorem synonyms_come_from_marked_categories (data synonyms_data : odict pyval)
    (c : string) (syns : list string) :
  _load_polymer_synonyms (Some (PDict data)) = Returned synonyms_data ->
  (c, syns) ∈ all_mappings_of synonyms_data ->
  exists cat m l,
    (cat, PDict m) ∈ data
    /\ starts_with_underscore cat = true
    /\ (c, PList l) ∈ m
    /\ syns = str_items l.
Proof.
  simpl. intros [= <-] (cat & m & l & Hin & Hm & ->)%all_mappings_elem.
  apply list_elem_of_In, filter_In in Hin as [Hin Hk]. simpl in Hk.
  apply list_elem_of_In in Hin. exists cat, m, l. repeat split; assumption.
Qed.

Lemma synonyms_come_from_marked_categories_witness :
  exists cat m l,
    (cat, PDict m)
    ∈ [("note", PStr "v1"); ("_thermal", PDict [("Tg", PList [PStr "T_g"; PNum 3])])]
    /\ starts_with_underscore cat = true
    /\ (("Tg", PList l) ∈ m)
    /\ ["T_g"] = str_items l.
Proof.
  apply (synonyms_come_from_marked_categories
           [("note", PStr "v1"); ("_thermal", PDict [("Tg", PList [PStr "T_g"; PNum 3])])]
           [("_thermal", PDict [("Tg", PList [PStr "T_g"; PNum 3])])]
           "Tg" ["T_g"]).
  - reflexivity.
  - vm_compute. apply elem_of_cons. by left.
Defined.

(** ** Flattening: a canonical term defined twice *)

Lemma dict_get_set_eq {V} (k : string) (v : V) (d : odict V) :
  dict_get k (dict_set k v d) = Some v.
Proof.
  induction d as [|[k0 v0] d IH]; simpl.
  - by rewrite decide_True.
  - destruct (decide (k = k0)) as [->|Hne]; simpl.
    + by rewrite decide_True.
    + by rewrite decide_False.
Qed.

Lemma dict_get_set_ne {V} (k k' : string) (v : V) (d : odict V) :
  k <> k' -> dict_get k' (dict_set k v d) = dict_get k' d.
Proof.
  intros Hne. induction d as [|[k0 v0] d IH]; simpl.
  - by rewrite decide_False.
  - destruct (decide (k = k0)) as [->|Hne0]; simpl.
    + by rewrite !(decide_False (P := k' = k0)).
    + by rewrite IH.
Qed.

Lemma flatten_category_keeps (acc : odict (list string)) (m : odict pyval)
    (c : string) :
  (forall l, (c, PList l) ∉ m) ->
  dict_get c (flatten_category acc m) = dict_get c acc.
Proof.
  unfold flatten_category. revert acc.
  induction m as [|[c0 v] m IH]; simpl; intros acc Hfree; [done|].
  rewrite IH.
  - destruct v as [| | | |l|]; try done.
    apply dict_get_set_ne. intros ->. apply (Hfree l). apply elem_of_cons. by left.
  - intros l Hin. apply (Hfree l). apply elem_of_cons. by right.
Qed.

Lemma flatten_category_app (acc : odict (list string)) (m1 m2 : odict pyval) :
  flatten_category acc (m1 ++ m2)%list
  = flatten_category (flatten_category acc m1) m2.
Proof. unfold flatten_category. apply fold_left_app. Qed.

Lemma all_mappings_fold_keeps (synonyms_data : odict pyval)
    (acc : odict (list string)) (c : string) :
  (forall cat m l, (cat, PDict m) ∈ synonyms_data -> (c, PList l) ∉ m) ->
  dict_get c
    (fold_left
       (fun acc '(category, mappings) =>
          match mappings with
          | PDict m => flatten_category acc m
          | _ => acc
          end) synonyms_data acc)
  = dict_get c acc.
Proof.
  revert acc. induction synonyms_data as [|[cat v] G IH]; simpl; intros acc Hfree;
    [done|].
  rewrite IH.
  - destruct v as [| | | | |m]; try done.
    apply flatten_category_keeps. intros l. apply (Hfree cat m l).
    apply elem_of_cons. by left.
  - intros cat' m l Hin. apply (Hfree cat' m l). apply elem_of_cons. by right.
Qed.

(** X19.  When a canonical term is given a list more than once, in one category
    or in several, the last list is the one that counts: the earlier ones
    are replaced, not merged. *)
Theorem last_synonym_list_wins (before after : odict pyval) (cat : string)
    (m1 m2 : odict pyval) (c : string) (l : list pyval) :
  (forall l', (c, PList l') ∉ m2) ->
  (forall cat' m' l', (cat', PDict m') ∈ after -> (c, PList l') ∉ m') ->
  dict_get c
    (all_mappings_of
       (before ++ (cat, PDict (m1 ++ (c, PList l) :: m2)%list) :: after)%list)
  = Some (str_items l).
Proof.
  intros Hm2 Hafter. unfold all_mappings_of.
  rewrite fold_left_app. simpl.
  rewrite all_mappings_fold_keeps by done.
  change ((c, PList l) :: m2) with ([(c, PList l)] ++ m2)%list.
  rewrite !flatten_category_app, flatten_category_keeps by done.
  unfold flatten_category at 1. simpl. apply dict_get_set_eq.
Qed.

Lemma last_synonym_list_wins_witness :
  dict_get "Tg"
    (all_mappings_of
       [("_thermal", PDict [("Tg", PList [PStr "glass transition"])]);
        ("_other", PDict [("Tg", PList [PStr "T_g"]); ("Mw", PList [])])])
  = Some ["T_g"].
Proof.
  apply (last_synonym_list_wins
           [("_thermal", PDict [("Tg", PList [PStr "glass transition"])])] []
           "_other" [] [("Mw", PList [])] "Tg" [PStr "T_g"]).
  - intros l' Hin. apply elem_of_cons in Hin as [Hin | Hin]; [discriminate Hin|].
    exact (proj1 (elem_of_nil _) Hin).
  - intros cat' m' l' Hin. exfalso. exact (proj1 (elem_of_nil _) Hin).
Defined.

(** ** The full text of a document *)

Lemma occurs_in_refl (s : string) : occurs_in s s.
Proof. exists [], []. simpl. by rewrite app_nil_r. Qed.

Lemma occurs_in_app_l (p a b : string) : occurs_in p a -> occurs_in p (a +:+ b).
Proof.
  intros (x & y & H). exists x, (y ++ Str.chars b)%list.
  by rewrite chars_app, H, <- !app_assoc.
Qed.

Lemma occurs_in_app_r (p a b : string) : occurs_in p b -> occurs_in p (a +:+ b).
Proof.
  intros (x & y & H). exists (Str.chars a ++ x)%list, y.
  by rewrite chars_app, H, <- !app_assoc.
Qed.

Lemma join_holds_parts (sep : string) (parts : list string) (p : string) :
  p ∈ parts -> occurs_in p (Str.join sep parts).
Proof.
  induction parts as [|q parts IH]; [by intros ?%elem_of_nil|].
  intros Hin. cbn [Str.join]. destruct parts as [|q' parts].
  - apply list_elem_of_singleton in Hin as ->. apply occurs_in_refl.
  - apply elem_of_cons in Hin as [->|Hin].
    + apply occurs_in_app_l, occurs_in_refl.
    + apply occurs_in_app_r, occurs_in_app_r. by apply IH.
Qed.

(** X20.  Nothing of a document is lost on the way to the full text: it holds the
    title, every section text that is not blank as it stands, and the
    trimmed content of every table that is not blank. *)
Theorem full_text_holds_every_part (doc : parsed) :
  occurs_in (title doc) (_build_full_text doc)
  /\ (forall name text, (name, text) ∈ sections doc ->
        Str.strip text <> EmptyString -> occurs_in text (_build_full_text doc))
  /\ (forall content, content ∈ tables doc ->
        Str.strip content <> EmptyString ->
        occurs_in (Str.strip content) (_build_full_text doc)).
Proof.
  unfold _build_full_text. split; [|split].
  - apply join_holds_parts. apply elem_of_app. left. apply elem_of_app. left.
    by apply list_elem_of_singleton.
  - intros name text Hin Hne. apply join_holds_parts.
    apply elem_of_app. left. apply elem_of_app. right.
    apply list_elem_of_In, in_map_iff. exists (name, text). split; [done|].
    apply filter_In. split; [by apply list_elem_of_In|].
    unfold truthy. destruct text as [|c text]; [done|]. simpl.
    destruct (Str.strip (String c text)) eqn:E; done.
  - intros content Hin Hne. apply join_holds_parts.
    apply elem_of_app. right. apply list_elem_of_In, filter_In. split.
    + apply in_map. by apply list_elem_of_In.
    + unfold truthy. by destruct (Str.strip content).
Qed.

Lemma full_text_holds_every_part_witness :
  occurs_in methods_text
    (_build_full_text (Parsed "A study" [("Methods", methods_text)] ["  Tg | 105  "]))
  /\ occurs_in "Tg | 105"
       (_build_full_text (Parsed "A study" [("Methods", methods_text)] ["  Tg | 105  "])).
Proof.
  destruct (full_text_holds_every_part
              (Parsed "A study" [("Methods", methods_text)] ["  Tg | 105  "]))
    as (_ & Hsec & Htab).
  split.
  - apply (Hsec "Methods"); [apply elem_of_cons; by left|]. vm_compute. discriminate.
  - apply (Htab "  Tg | 105  "); [apply elem_of_cons; by left|]. vm_compute. discriminate.
Defined.

(** ** The property terms of a line file *)

Lemma occurs_in_chars (p t : string) (c : ascii) :
  occurs_in p t -> c ∈ Str.chars p -> c ∈ Str.chars t.
Proof.
  intros (a & b & ->) Hin. apply elem_of_app. right. apply elem_of_app. by left.
Qed.

Lemma elem_of_rev {A} (x : A) (l : list A) : x ∈ rev l -> x ∈ l.
Proof. rewrite !list_elem_of_In. apply in_rev. Qed.

Lemma splitlines_from_lines (s : string) (after_cr : bool) (cur : list ascii)
    (line : string) :
  (forall c, c ∈ cur -> is_linebreak c = false) ->
  line ∈ splitlines_from after_cr cur s -> linebreak_free line.
Proof.
  revert after_cr cur.
  induction s as [|c s IH]; intros after_cr cur Hcur Hin; cbn [splitlines_from] in Hin.
  - destruct cur as [|c0 cur]; [by apply elem_of_nil in Hin|].
    apply list_elem_of_singleton in Hin as ->.
    intros c Hc. rewrite chars_of_list in Hc. apply Hcur. by apply elem_of_rev.
  - destruct (after_cr && is_lf c); [by apply (IH false cur)|].
    destruct (is_linebreak c) eqn:Ec.
    + apply elem_of_cons in Hin as [->|Hin].
      * intros c' Hc. rewrite chars_of_list in Hc. apply Hcur. by apply elem_of_rev.
      * apply (IH (is_cr c) []); [|done]. by intros c' ?%elem_of_nil.
    + apply (IH false (c :: cur)); [|done].
      intros c' [->|Hc]%elem_of_cons; [done|by apply Hcur].
Qed.

Lemma terms_of_lines_clean (text term : string) :
  term ∈ terms_of_lines text ->
  term <> EmptyString /\ Str.strip term = term /\ linebreak_free term.
Proof.
  unfold terms_of_lines. rewrite list_elem_of_In, in_map_iff.
  intros (line & <- & Hline). apply filter_In in Hline as [Hline Ht].
  split; [|split].
  - unfold truthy in Ht. by destruct (Str.strip line).
  - apply str_strip_idem.
  - intros c Hc. apply (occurs_in_chars _ _ _ (strip_occurs line)) in Hc.
    apply list_elem_of_In in Hline.
    apply (splitlines_from_lines text false [] line); [|done|done].
    by intros c' ?%elem_of_nil.
Qed.

(** X21.  A properties file that does not hold a JSON list replaces the
    [--properties] arguments by its lines: every term taken from it is
    non-empty, trimmed and free of line breaks, so each line gives at most
    one term and blank lines give none. *)
Theorem file_terms_are_clean (json_loads : string -> outcome (list string))
    (properties : list string) (file_text : string) (terms : list string)
    (term : string) :
  starts_with_bracket (Str.strip file_text) = false ->
  property_terms_of json_loads properties (Some file_text) = Returned terms ->
  term ∈ terms ->
  term <> EmptyString /\ Str.strip term = term /\ linebreak_free term.
Proof.
  unfold property_terms_of. intros -> [= <-]. apply terms_of_lines_clean.
Qed.

Lemma file_terms_are_clean_witness :
  "glass transition" <> EmptyString
  /\ Str.strip "glass transition" = "glass transition"
  /\ linebreak_free "glass transition".
Proof.
  apply (file_terms_are_clean (fun _ => Raised "JSONDecodeError") ["Mw"]
           (" Tg " +:+ String line_feed (String line_feed " glass transition  "))
           ["Tg"; "glass transition"] "glass transition").
  - reflexivity.
  - vm_compute. reflexivity.
  - apply elem_of_cons. right. apply elem_of_cons. by left.
Defined.

(** ** The files that are written *)

Lemma list_of_chars (s : string) : string_of_list_ascii (Str.chars s) = s.
Proof. induction s as [|c s IH]; simpl; [done|]. by rewrite IH. Qed.

Lemma linebreak_free_cons (c : ascii) (s : string) :
  linebreak_free (String c s) <-> is_linebreak c = false /\ linebreak_free s.
Proof.
  unfold linebreak_free. simpl. split.
  - intros H. split; [apply H; apply elem_of_cons; by left|].
    intros c' Hin. apply H. apply elem_of_cons. by right.
  - intros [Hc Hs] c' [->|Hin]%elem_of_cons; [done|by apply Hs].
Qed.

Lemma splitlines_from_line (p rest : string) (cur : list ascii) :
  linebreak_free p ->
  splitlines_from false cur (p +:+ String line_feed rest)
  = string_of_list_ascii (rev cur ++ Str.chars p) :: splitlines_from false [] rest.
Proof.
  revert cur. induction p as [|c p IH]; intros cur Hfree.
  - rewrite append_nil_l. simpl. by rewrite app_nil_r.
  - apply linebreak_free_cons in Hfree as [Hc Hp].
    rewrite append_cons. cbn [splitlines_from andb]. rewrite Hc.
    rewrite IH by done. simpl. by rewrite <- app_assoc.
Qed.

Lemma append_assoc (a b c : string) : (a +:+ b) +:+ c = a +:+ (b +:+ c).
Proof. induction a as [|x a IH]; [done|]. by rewrite !append_cons, IH. Qed.

(** X22.  Both files can be read back line by line: the list file gives the
    passing names, and the failures file one line per failing document, its
    name and reason separated by a tab, provided no name and no reason
    holds a line break. *)
Theorem written_files_read_back (passing : list string)
    (failing : list (string * string)) :
  ((forall p, p ∈ passing -> linebreak_free p) ->
   splitlines (output_file_text passing) = passing)
  /\
  ((forall p reason, (p, reason) ∈ failing ->
      linebreak_free p /\ linebreak_free reason) ->
   splitlines (failures_file_text failing)
   = List.map (fun '(p, reason) => p +:+ String tab reason) failing).
Proof.
  unfold splitlines. split.
  - induction passing as [|p passing IH]; intros Hfree; [done|].
    cbn [output_file_text]. rewrite splitlines_from_line.
    + simpl. rewrite list_of_chars, IH; [done|].
      intros q Hq. apply Hfree. apply elem_of_cons. by right.
    + apply Hfree. apply elem_of_cons. by left.
  - induction failing as [|[p reason] failing IH]; intros Hfree; [done|].
    cbn [failures_file_text List.map].
    destruct (Hfree p reason) as [Hp Hr]; [apply elem_of_cons; by left|].
    replace (p +:+ String tab (reason +:+ String line_feed (failures_file_text failing)))
      with ((p +:+ String tab reason) +:+ String line_feed (failures_file_text failing))
      by (by rewrite append_assoc, append_cons).
    rewrite splitlines_from_line.
    + simpl. rewrite list_of_chars, IH; [done|].
      intros q r Hq. apply Hfree. apply elem_of_cons. by right.
    + intros c. rewrite chars_app. simpl.
      intros [Hc|[->|Hc]%elem_of_cons]%elem_of_app; [by apply Hp|done|by apply Hr].
Qed.

Lemma written_files_read_back_witness :
  splitlines (output_file_text ["a.html"]) = ["a.html"]
  /\ splitlines (failures_file_text [("b.html", "parse error: bad")])
     = ["b.html" +:+ String tab "parse error: bad"].
Proof.
  destruct (written_files_read_back ["a.html"] [("b.html", "parse error: bad")])
    as [Hpass Hfail].
  split.
  - apply Hpass. intros p Hin.
    apply elem_of_cons in Hin as [-> | Hin];
      [|exfalso; exact (proj1 (elem_of_nil _) Hin)].
    intros c Hc. vm_compute in Hc.
    repeat (apply elem_of_cons in Hc as [-> | Hc]; [reflexivity|]).
    exfalso. exact (proj1 (elem_of_nil _) Hc).
  - apply Hfail. intros p reason Hin.
    apply elem_of_cons in Hin as [[= -> ->] | Hin];
      [|exfalso; exact (proj1 (elem_of_nil _) Hin)].
    split; intros c Hc; vm_compute in Hc;
      repeat (apply elem_of_cons in Hc as [-> | Hc]; [reflexivity|]);
      exfalso; exact (proj1 (elem_of_nil _) Hc).
Defined.

(** ** Aggregation: the rows of the table *)

Lemma pick_keys (keys : list string) (d : odict pyval) : (pick keys d).*1 = keys.
Proof. unfold pick. induction keys as [|k keys IH]; simpl; [done|]. f_equal. exact IH. Qed.

Lemma rows_of_properties_elem (paper_meta comp_meta : odict pyval)
    (props : list pyval) (rows : list (odict pyval)) (row : odict pyval) :
  rows_of_properties paper_meta comp_meta props = Returned rows ->
  row ∈ rows ->
  exists prop, PDict prop ∈ props
    /\ row = (paper_meta ++ comp_meta ++ pick PROPERTY_KEYS prop)%list.
Proof.
  revert rows. induction props as [|v props IH]; simpl; intros rows Hr Hin.
  - injection Hr as <-. by apply elem_of_nil in Hin.
  - destruct v as [| | | | |p]; try done. simpl in Hr.
    destruct (rows_of_properties paper_meta comp_meta props) as [rest|e]; [|done].
    simpl in Hr. injection Hr as <-.
    apply elem_of_cons in Hin as [->|Hin].
    + exists p. split; [apply elem_of_cons; by left|done].
    + destruct (IH rest eq_refl Hin) as (prop & Hp & ->).
      exists prop. split; [apply elem_of_cons; by right|done].
Qed.

Lemma rows_of_compositions_elem (paper_meta : odict pyval) (comps : list pyval)
    (rows : list (odict pyval)) (row : odict pyval) :
  rows_of_compositions paper_meta comps = Returned rows ->
  row ∈ rows ->
  exists comp props prop,
    PDict comp ∈ comps
    /\ py_iter (py_get_or "properties_of_composition" (PList []) comp) = Returned props
    /\ PDict prop ∈ props
    /\ row = (paper_meta ++ pick COMPOSITION_KEYS comp ++ pick PROPERTY_KEYS prop)%list.
Proof.
  revert rows. induction comps as [|v comps IH]; simpl; intros rows Hr Hin.
  - injection Hr as <-. by apply elem_of_nil in Hin.
  - destruct v as [| | | | |c]; try done. simpl in Hr.
    destruct (py_iter _) as [props|e] eqn:Ei; [|done]. simpl in Hr.
    destruct (rows_of_properties _ _ props) as [here|e] eqn:Eh; [|done]. simpl in Hr.
    destruct (rows_of_compositions paper_meta comps) as [more|e]; [|done].
    simpl in Hr. injection Hr as <-.
    apply elem_of_app in Hin as [Hin|Hin].
    + destruct (rows_of_properties_elem _ _ _ _ _ Eh Hin) as (prop & Hp & ->).
      exists c, props, prop. split; [apply elem_of_cons; by left|done].
    + destruct (IH more eq_refl Hin) as (comp & props' & prop & Hc & Hi & Hp & ->).
      exists comp, props', prop. split; [apply elem_of_cons; by right|done].
Qed.

Lemma aggregate_elem (data : list pyval) (rows : list (odict pyval))
    (row : odict pyval) :
  aggregate_to_dataframe data = Returned rows ->
  row ∈ rows ->
  exists paper comps comp props prop,
    PDict paper ∈ data
    /\ py_iter (py_get_or "compositions" (PList []) paper) = Returned comps
    /\ PDict comp ∈ comps
    /\ py_iter (py_get_or "properties_of_composition" (PList []) comp) = Returned props
    /\ PDict prop ∈ props
    /\ row = (pick PAPER_KEYS paper ++ pick COMPOSITION_KEYS comp
              ++ pick PROPERTY_KEYS prop)%list.
Proof.
  revert rows. induction data as [|v data IH]; simpl; intros rows Hr Hin.
  - injection Hr as <-. by apply elem_of_nil in Hin.
  - destruct v as [| | | | |p]; try done. simpl in Hr.
    destruct (py_iter _) as [comps|e] eqn:Ei; [|done]. simpl in Hr.
    destruct (rows_of_compositions _ comps) as [here|e] eqn:Eh; [|done]. simpl in Hr.
    destruct (aggregate_to_dataframe data) as [more|e]; [|done].
    simpl in Hr. injection Hr as <-.
    apply elem_of_app in Hin as [Hin|Hin].
    + destruct (rows_of_compositions_elem _ _ _ _ Eh Hin)
        as (comp & props & prop & Hc & Hi & Hp & ->).
      exists p, comps, comp, props, prop. split; [apply elem_of_cons; by left|done].
    + destruct (IH more eq_refl Hin)
        as (paper & comps' & comp & props & prop & Hpa & Hic & Hc & Hi & Hp & ->).
      exists paper, comps', comp, props, prop.
      split; [apply elem_of_cons; by right|done].
Qed.

(** X23.  Every row of the table is made of one property, of the composition
    that holds it and of the paper that holds the composition: a row never
    mixes the data of two papers or of two compositions. *)
Theorem rows_come_from_one_property (data : list pyval)
    (rows : list (odict pyval)) (row : odict pyval) :
  aggregate_to_dataframe data = Returned rows ->
  row ∈ rows ->
  exists paper comps comp props prop,
    PDict paper ∈ data
    /\ py_iter (py_get_or "compositions" (PList []) paper) = Returned comps
    /\ PDict comp ∈ comps
    /\ py_iter (py_get_or "properties_of_composition" (PList []) comp) = Returned props
    /\ PDict prop ∈ props
    /\ row = (pick PAPER_KEYS paper ++ pick COMPOSITION_KEYS comp
              ++ pick PROPERTY_KEYS prop)%list.
Proof. apply aggregate_elem. Qed.

(** X24.  Every row has the same 22 columns in the same order, whatever keys the
    papers, compositions and properties of the file have; a missing key
    gives [None]. *)
Theorem rows_share_the_columns (data : list pyval) (rows : list (odict pyval))
    (row : odict pyval) :
  aggregate_to_dataframe data = Returned rows ->
  row ∈ rows ->
  row.*1 = COLUMNS /\ length row = 22.
Proof.
  intros Hr Hin.
  destruct (aggregate_elem _ _ _ Hr Hin) as (paper & _ & comp & _ & prop & _ & _ & _ & _ & _ & ->).
  split.
  - by rewrite !fmap_app, !pick_keys.
  - rewrite !length_app. unfold pick. by rewrite !length_map.
Qed.

Lemma and_then_assoc {A B C} (x : outcome A) (f : A -> outcome B)
    (g : B -> outcome C) :
  and_then (and_then x f) g = and_then x (fun a => and_then (f a) g).
Proof. by destruct x. Qed.

(** X25.  Papers are aggregated independently and in order: the rows of two
    lists of papers taken together are the rows of the first followed by
    those of the second, and the first exception met ends the call. *)
Theorem aggregate_app (data1 data2 : list pyval) :
  aggregate_to_dataframe (data1 ++ data2)
  = and_then (aggregate_to_dataframe data1) (fun rows1 =>
    and_then (aggregate_to_dataframe data2) (fun rows2 =>
    Returned (rows1 ++ rows2)%list)).
Proof.
  induction data1 as [|v data1 IH]; simpl.
  - by destruct (aggregate_to_dataframe data2).
  - destruct (as_dict v) as [p|e]; [|done]. simpl.
    destruct (py_iter _) as [comps|e]; [|done]. simpl.
    destruct (rows_of_compositions _ comps) as [here|e]; [|done]. simpl.
    rewrite IH. destruct (aggregate_to_dataframe data1) as [more|e]; [|done]. simpl.
    destruct (aggregate_to_dataframe data2) as [rows2|e]; [|done]. simpl.
    by rewrite app_assoc.
Qed.

#[local] Arguments pick : simpl never.

Lemma all_dicts_some (l : list pyval) (ds : list (odict pyval)) :
  all_dicts l = Some ds -> l = List.map PDict ds.
Proof.
  revert ds. induction l as [|v l IH]; simpl; intros ds H.
  - by injection H as <-.
  - destruct v as [| | | | |d]; try done.
    destruct (all_dicts l) as [ds'|]; [|done]. injection H as <-.
    simpl. by rewrite (IH ds' eq_refl).
Qed.

Lemma dicts_of_iter (v : pyval) (ds : list (odict pyval)) :
  dicts_of v = Some ds -> py_iter v = Returned (List.map PDict ds).
Proof.
  destruct v as [| | | |l|]; try done. simpl. intros H.
  by rewrite (all_dicts_some l ds H).
Qed.

Lemma rows_of_properties_count (paper_meta comp_meta : odict pyval)
    (props : list (odict pyval)) :
  exists rows,
    rows_of_properties paper_meta comp_meta (List.map PDict props) = Returned rows
    /\ length rows = length props.
Proof.
  induction props as [|p props (rows & IH & Hlen)]; simpl; [by exists []|].
  rewrite IH. simpl. eexists. split; [done|]. simpl. by rewrite Hlen.
Qed.

Lemma rows_of_compositions_count (paper_meta : odict pyval)
    (comps : list (odict pyval)) :
  (forall comp, comp ∈ comps -> is_Some (properties_in comp)) ->
  exists rows,
    rows_of_compositions paper_meta (List.map PDict comps) = Returned rows
    /\ length rows = list_sum (List.map properties_of_composition_count comps).
Proof.
  induction comps as [|c comps IH]; simpl; intros Hshape; [by exists []|].
  destruct (Hshape c) as [props Hprops]; [apply elem_of_cons; by left|].
  destruct IH as (more & IH & Hlen).
  { intros comp Hin. apply Hshape. apply elem_of_cons. by right. }
  unfold properties_of_composition_count at 1. rewrite Hprops.
  unfold properties_in in Hprops. rewrite (dicts_of_iter _ _ Hprops). simpl.
  destruct (rows_of_properties_count paper_meta (pick COMPOSITION_KEYS c) props)
    as (here & -> & Hhere).
  simpl. rewrite IH. simpl. eexists. split; [done|].
  rewrite length_app. lia.
Qed.

(** X26.  On a file of the shape the extraction writes the call returns, and the
    table has one row for each property: a paper without compositions, or a
    composition without properties, leaves no row. *)
Theorem one_row_per_property (papers : list (odict pyval)) :
  well_shaped papers ->
  exists rows,
    aggregate_to_dataframe (List.map PDict papers) = Returned rows
    /\ length rows = list_sum (List.map properties_of_paper_count papers).
Proof.
  induction papers as [|p papers IH]; simpl; intros Hshape; [by exists []|].
  destruct (Hshape p) as (comps & Hcomps & Hprops); [apply elem_of_cons; by left|].
  destruct IH as (more & IH & Hlen).
  { intros paper Hin. apply Hshape. apply elem_of_cons. by right. }
  unfold properties_of_paper_count at 1. rewrite Hcomps.
  unfold compositions_in in Hcomps. rewrite (dicts_of_iter _ _ Hcomps). simpl.
  destruct (rows_of_compositions_count (pick PAPER_KEYS p) comps Hprops)
    as (here & -> & Hhere).
  simpl. rewrite IH. simpl. eexists. split; [done|].
  rewrite length_app. lia.
Qed.

Lemma one_row_per_property_witness :
  exists rows,
    aggregate_to_dataframe [PDict sample_paper; PDict [("doi", PStr "10.1039/y")]]
    = Returned rows
    /\ length rows = 2.
Proof.
  apply (one_row_per_property [sample_paper; [("doi", PStr "10.1039/y")]]).
  intros paper Hin.
  apply elem_of_cons in Hin as [-> | Hin].
  - eexists. split; [reflexivity|]. intros comp Hc.
    apply elem_of_cons in Hc as [-> | Hc]; [by eexists|].
    exfalso. exact (proj1 (elem_of_nil _) Hc).
  - apply elem_of_cons in Hin as [-> | Hin];
      [|exfalso; exact (proj1 (elem_of_nil _) Hin)].
    exists []. split; [reflexivity|]. intros comp Hc.
    exfalso. exact (proj1 (elem_of_nil _) Hc).
Defined.

Lemma rows_share_the_columns_witness :
  sample_row.*1 = COLUMNS /\ length sample_row = 22.
Proof.
  eapply (rows_share_the_columns [PDict sample_paper] _ sample_row).
  - vm_compute. reflexivity.
  - apply elem_of_cons. right. apply elem_of_cons. left. reflexivity.
Defined.

Lemma rows_come_from_one_property_witness :
  exists paper comps comp props prop,
    PDict paper ∈ [PDict sample_paper]
    /\ py_iter (py_get_or "compositions" (PList []) paper) = Returned comps
    /\ PDict comp ∈ comps
    /\ py_iter (py_get_or "properties_of_composition" (PList []) comp) = Returned props
    /\ PDict prop ∈ props
    /\ sample_row = (pick PAPER_KEYS paper ++ pick COMPOSITION_KEYS comp
                     ++ pick PROPERTY_KEYS prop)%list.
Proof.
  eapply (rows_come_from_one_property [PDict sample_paper] _ sample_row).
  - vm_compute. reflexivity.
  - apply elem_of_cons. right. apply elem_of_cons. left. reflexivity.
Defined.

(** ** Sentence splitting: short texts *)

Lemma length_chars (s : string) : length (Str.chars s) = String.length s.
Proof. induction s as [|c s IH]; simpl; [done|]. by rewrite IH. Qed.

Lemma length_append (a b : string) :
  String.length (a +:+ b) = String.length a + String.length b.
Proof. by rewrite <- !length_chars, chars_app, length_app. Qed.

Lemma occurs_in_length (p t : string) :
  occurs_in p t -> String.length p <= String.length t.
Proof.
  intros (a & b & H). rewrite <- !length_chars, H, !length_app. lia.
Qed.

Lemma sub_from_length (r : Re.regex) (repl : string) (skip : nat)
    (pv : option ascii) (s : string) :
  String.length repl <= 1 ->
  String.length (Re.sub_from r repl skip pv s) <= String.length s.
Proof.
  intros Hrepl. revert skip pv. induction s as [|c s IH]; intros skip pv; [done|].
  cbn [Re.sub_from]. destruct skip as [|n].
  - destruct (Re.match_here r pv (String c s)) as [m|].
    + destruct (Re.m_len m) as [|n].
      * simpl. specialize (IH 0 (Some c)). lia.
      * rewrite length_append. simpl. specialize (IH n (Some c)). lia.
    + simpl. specialize (IH 0 (Some c)). lia.
  - simpl. specialize (IH n (Some c)). lia.
Qed.

Lemma list_filter_none {A} (f : A -> bool) (l : list A) :
  (forall x, x ∈ l -> f x = false) -> List.filter f l = [].
Proof.
  induction l as [|a l IH]; simpl; intros H; [done|].
  rewrite (H a) by (apply elem_of_cons; by left).
  apply IH. intros x Hx. apply H. apply elem_of_cons. by right.
Qed.

(** X27.  A text of at most 15 characters has no sentence: headings and stray
    words on their own are dropped. *)
Theorem short_text_has_no_sentence (text : string) :
  String.length text <= 15 -> _split_into_sentences text = [].
Proof.
  intros Hshort. unfold _split_into_sentences.
  destruct (Str.is_empty text); [done|].
  rewrite list_filter_none; [done|].
  intros q Hq. apply Nat.ltb_ge.
  unfold Re.split in Hq. apply split_from_pieces in Hq as (a & b & H); [|by left].
  assert (occurs_in q (Re.sub WHITESPACE " " text)) as Hocc by (by exists a, b).
  pose proof (occurs_in_length _ _ (strip_occurs q)).
  pose proof (occurs_in_length _ _ Hocc).
  pose proof (sub_from_length WHITESPACE " " 0 None text) as Hsub.
  unfold Re.sub in *. simpl in Hsub. lia.
Qed.

Lemma short_text_has_no_sentence_witness :
  _split_into_sentences "Introduction." = [].
Proof. apply short_text_has_no_sentence. vm_compute. lia. Defined.
